(** * Sudoku solver: grid model, text format and time-bounded backtracking

    A shallow embedding of the [Sudoku] class of [src/main.cpp] and the
    properties its specification states about it.

    Conventions of the embedding:
    - the member [grid] (a [std::array<std::array<int, 9>, 9>]) is a list of
      rows, each a list of cells; cells are [int]s, modelled in [Z]; row and
      column indices are array indices, modelled in [nat];
    - a [std::string] is a list of characters;
    - [std::chrono::steady_clock::now()] is an oracle: the k-th reading of
      the clock during a run is [now k], a time point in nanoseconds;
    - the member functions that mutate the object thread a [Sudoku] record;
      the recursion of [backtrack] is driven by a fuel argument that bounds
      the nesting depth of the calls. *)

From Stdlib Require Import List ZArith Ascii String Lia Bool Sorted.
From stdpp Require Import base list.
From Equations Require Import Equations.
From Equations.Prop Require Import Logic.
Import ListNotations.

#[local] Open Scope nat_scope.

(** ** The grid *)

(** [static constexpr int N = 9] *)
Definition N : nat := 9.

Abbreviation Grid := (list (list Z)).

(** [grid{}]: the value-initialised member, every cell 0. *)
Definition empty_grid : Grid := replicate N (replicate N 0%Z).

(** [grid[row][col]] read. The source only reads and writes cells with
    [row, col < N]; outside the array the lookup falls back on a default
    value, which no statement below depends on. *)
Definition get (g : Grid) (row col : nat) : Z := (g !!! row) !!! col.

(** [grid[row][col] = v]. *)
Definition set (g : Grid) (row col : nat) (v : Z) : Grid :=
  <[row := <[col := v]> (g !!! row)]> g.

(** The shape the array type fixes: nine rows of nine cells. *)
Definition shaped (g : Grid) : Prop :=
  length g = N /\ Forall (fun r => length r = N) g.

(** Cell values of the data model: 0 for an empty cell, 1-9 for a digit. *)
Definition in_range (g : Grid) : Prop :=
  Forall (Forall (fun v => (0 <= v <= 9)%Z)) g.

(** ** Constraint queries *)

(** [Sudoku::isSafe]: three scans, each returning [false] at the first cell
    that holds [num]. *)
Definition isSafe (g : Grid) (row col : nat) (num : Z) : bool :=
  if existsb (fun j => get g row j =? num)%Z (seq 0 N) then false
  else if existsb (fun i => get g i col =? num)%Z (seq 0 N) then false
  else
    let startRow := row - row mod 3 in
    let startCol := col - col mod 3 in
    if existsb (fun i =>
          existsb (fun j => get g (startRow + i) (startCol + j) =? num)%Z
                  (seq 0 3))
         (seq 0 3)
    then false
    else true.

(** The inner loop of [Sudoku::findEmptyCell] for one row. *)
Definition findEmptyCol (g : Grid) (row : nat) : option nat :=
  find (fun col => get g row col =? 0)%Z (seq 0 N).

(** [Sudoku::findEmptyCell]: rows top to bottom, columns left to right; the
    coordinates written through the reference parameters are the result. *)
Fixpoint findEmptyFrom (g : Grid) (rows : list nat) : option (nat * nat) :=
  match rows with
  | [] => None
  | row :: rest =>
      match findEmptyCol g row with
      | Some col => Some (row, col)
      | None => findEmptyFrom g rest
      end
  end.

Definition findEmptyCell (g : Grid) : option (nat * nat) :=
  findEmptyFrom g (seq 0 N).

(** ** The search engine *)

(** What a run of the solver does, recorded in the order of execution (most
    recent first in [log]): a deadline test and its result, a candidate taken
    up by the loop of [backtrack], a placement, an undo. The grid stored in
    [Placed] and [Undone] is the grid right after the write. *)
Inductive event : Type :=
| Checked (late : bool)
| Tried (row col : nat) (num : Z)
| Placed (row col : nat) (num : Z) (after : Grid)
| Undone (row col : nat) (after : Grid).

(** The object: its three data members, followed by two ghost fields: the
    number of clock readings made so far and the log of events. Nothing
    reads the log; it is there for the statements about the course of a
    search. *)
Record Sudoku : Type := mkSudoku {
  grid : Grid;
  timed_out : bool;
  start_time : Z;
  reads : nat;
  log : list event
}.

(** [Sudoku() = default], holding grid [g]. *)
Definition fresh (g : Grid) : Sudoku :=
  {| grid := g; timed_out := false; start_time := 0; reads := 0; log := [] |}.

(** [TIME_LIMIT = std::chrono::seconds(5)], in nanoseconds. *)
Definition TIME_LIMIT : Z := 5 * 1000000000.

(** [grid[row][col] = num] in [backtrack]. *)
Definition place (s : Sudoku) (row col : nat) (num : Z) : Sudoku :=
  let g := set (grid s) row col num in
  {| grid := g; timed_out := timed_out s; start_time := start_time s;
     reads := reads s; log := Placed row col num g :: log s |}.

(** [grid[row][col] = 0] in [backtrack]. *)
Definition undo (s : Sudoku) (row col : nat) : Sudoku :=
  let g := set (grid s) row col 0 in
  {| grid := g; timed_out := timed_out s; start_time := start_time s;
     reads := reads s; log := Undone row col g :: log s |}.

(** One more iteration of the loop of [backtrack], for candidate [num]:
    only the log changes. *)
Definition tried (s : Sudoku) (row col : nat) (num : Z) : Sudoku :=
  {| grid := grid s; timed_out := timed_out s; start_time := start_time s;
     reads := reads s; log := Tried row col num :: log s |}.

(** The candidates of [for (int num = 1; num <= 9; ++num)]. *)
Definition candidates : list Z := [1; 2; 3; 4; 5; 6; 7; 8; 9]%Z.

(** The three results the caller tells apart ([main], with [solve]'s return
    value and [hasTimedOut]). *)
Inductive SolveOutcome : Type := Solved | Exhausted | TimedOut.

Section Solver.

(** The clock: [now k] is the k-th value read from [steady_clock]. *)
Variable now : nat -> Z.

(** The test [steady_clock::now() - start_time > TIME_LIMIT]: one clock
    reading, and the result of the comparison. *)
Definition deadline_check (s : Sudoku) : bool * Sudoku :=
  let late := (now (reads s) - start_time s >? TIME_LIMIT)%Z in
  (late,
   {| grid := grid s; timed_out := timed_out s; start_time := start_time s;
      reads := S (reads s); log := Checked late :: log s |}).

(** [timed_out = true]. *)
Definition flag_timeout (s : Sudoku) : Sudoku :=
  {| grid := grid s; timed_out := true; start_time := start_time s;
     reads := reads s; log := log s |}.

(** The [for] loop of [backtrack] at the cell [(row, col)], over the
    candidates still to try; [recurse] is the recursive call. *)
Fixpoint try_candidates (recurse : Sudoku -> option (bool * Sudoku))
    (row col : nat) (nums : list Z) (s : Sudoku) : option (bool * Sudoku) :=
  match nums with
  | [] => Some (false, s)
  | num :: rest =>
      let s1 := tried s row col num in
      if isSafe (grid s1) row col num then
        match recurse (place s1 row col num) with
        | None => None
        | Some (true, s') => Some (true, s')
        | Some (false, s') =>
            if timed_out s' then Some (false, s')
            else try_candidates recurse row col rest (undo s' row col)
        end
      else try_candidates recurse row col rest s1
  end.

(** [Sudoku::backtrack]. [depth] bounds the nesting of the recursive
    calls; [None] means the bound was too small. *)
Fixpoint backtrack (depth : nat) (s : Sudoku) : option (bool * Sudoku) :=
  match depth with
  | O => None
  | S depth' =>
      let (late, s1) := deadline_check s in
      if late then Some (false, flag_timeout s1)
      else
        match findEmptyCell (grid s1) with
        | None => Some (true, s1)
        | Some (row, col) =>
            try_candidates (backtrack depth') row col candidates s1
        end
  end.

(** [start_time = std::chrono::steady_clock::now(); timed_out = false;] *)
Definition start (s : Sudoku) : Sudoku :=
  {| grid := grid s; timed_out := false; start_time := now (reads s);
     reads := S (reads s); log := log s |}.

(** [Sudoku::solve]. *)
Definition solve (depth : nat) (s : Sudoku) : option (bool * Sudoku) :=
  backtrack depth (start s).

End Solver.

(** The call [backtrack()] on object [s] returns [b] and leaves [s']. *)
Definition returns (now : nat -> Z) (s : Sudoku) (b : bool) (s' : Sudoku)
  : Prop :=
  exists depth, backtrack now depth s = Some (b, s').

(** How [main] reads the result of [solve]. *)
Definition outcome (r : bool * Sudoku) : SolveOutcome :=
  if fst r then Solved
  else if timed_out (snd r) then TimedOut
  else Exhausted.

(** The number of empty cells of a grid. *)
Definition count_empty (g : Grid) : nat :=
  length (filter (fun v => v = 0%Z) (concat g)).

(** ** The text format *)

Abbreviation text := (list ascii).

Definition newline : ascii := "010"%char.

(** [static_cast<char>(v + '0')]. *)
Definition to_char (v : Z) : ascii :=
  ascii_of_N (Z.to_N ((v + 48) mod 256)).

(** [grid[i][j] ? static_cast<char>(grid[i][j] + '0') : '.'] *)
Definition cell_char (v : Z) : ascii :=
  if (v =? 0)%Z then "."%char else to_char v.

(** The inner loop of [Sudoku::toString]: the characters of row [i]. *)
Definition row_text (g : Grid) (i : nat) : text :=
  flat_map
    (fun j =>
       cell_char (get g i j)
       :: (if ((j + 1) mod 3 =? 0) && negb (j + 1 =? N)
           then ["|"%char] else []))
    (seq 0 N).

Definition separator : text := list_ascii_of_string "-----------".

(** [Sudoku::toString]. *)
Definition toString (g : Grid) : text :=
  flat_map
    (fun i =>
       row_text g i ++ [newline]
       ++ (if ((i + 1) mod 3 =? 0) && negb (i + 1 =? N)
           then separator ++ [newline] else []))
    (seq 0 N).

(** [isdigit(c)] in the C locale, and [c - '0']. *)
Definition isdigit (c : ascii) : bool :=
  (48 <=? nat_of_ascii c) && (nat_of_ascii c <=? 57).

Definition digit_value (c : ascii) : Z := Z.of_nat (nat_of_ascii c) - 48.

(** [std::getline(file, line)] on what is left of the file: the characters
    up to the next newline, which is consumed; [None] when nothing is left. *)
Fixpoint getline (file : text) : option (text * text) :=
  match file with
  | [] => None
  | c :: rest =>
      if Ascii.eqb c newline then Some ([], rest)
      else
        match getline rest with
        | None => Some ([c], [])
        | Some (line, rest') => Some (c :: line, rest')
        end
  end.

Fixpoint starts_with (p s : text) : bool :=
  match p, s with
  | [], _ => true
  | _ :: _, [] => false
  | a :: p', b :: s' => Ascii.eqb a b && starts_with p' s'
  end.

(** [s.find(p) != std::string::npos] *)
Fixpoint found (p s : text) : bool :=
  starts_with p s
  || match s with
     | [] => false
     | _ :: s' => found p s'
     end.

Definition dashes : text := list_ascii_of_string "---".

(** The loop [for (char c : line)] of the constructor, filling row [i]. *)
Fixpoint scan_line (line : text) (i current_col : nat) (g : Grid) : Grid :=
  match line with
  | [] => g
  | c :: rest =>
      if N <=? current_col then g
      else if Ascii.eqb c "."%char then
        scan_line rest i (S current_col) (set g i current_col 0)
      else if isdigit c then
        scan_line rest i (S current_col) (set g i current_col (digit_value c))
      else scan_line rest i current_col g
  end.

(** The loop [while (i < N && std::getline(file, line))] of the
    constructor. *)
Equations? read_rows (file : text) (i : nat) (g : Grid) : Grid
  by wf (length file) lt :=
  read_rows file i g with (i <? N) := {
    | false := g
    | true with inspect (getline file) := {
        | exist _ None _ := g
        | exist _ (Some (line, rest)) _ :=
            if found dashes line then read_rows rest i g
            else read_rows rest (S i) (scan_line line i 0 g) } }.
Proof.
  all: match goal with H : getline _ = Some _ |- _ => revert H end.
  all: clear; revert line rest.
  all: induction file as [|c file IH]; intros line rest; simpl;
    [discriminate|].
  all: destruct (Ascii.eqb c newline); [intros [= <- <-]; lia|].
  all: destruct (getline file) as [[l r]|];
    [intros [= <- <-]; specialize (IH _ _ eq_refl); lia
    |intros [= <- <-]; simpl; lia].
Qed.

(** [Sudoku::Sudoku(const std::string&)], applied to the contents of the
    file (no content when the file cannot be opened). *)
Definition construct_from_text (file : text) : Grid :=
  read_rows file 0 empty_grid.

(** ** Statements about the placement test *)

(** [v] occurs in no cell of row [r], of column [c], or of the box of
    [(r, c)]: the three scans of [isSafe], cell by cell. *)
Definition occurs_nowhere (g : Grid) (r c : nat) (v : Z) : Prop :=
  (forall j, j < N -> get g r j <> v)
  /\ (forall i, i < N -> get g i c <> v)
  /\ (forall i j, i < N -> j < N -> i / 3 = r / 3 -> j / 3 = c / 3 ->
        get g i j <> v).

(** [v] occurs in no cell of row [r], column [c] or the box of [(r, c)]
    other than [(r, c)]. *)
Definition occurs_not_elsewhere (g : Grid) (r c : nat) (v : Z) : Prop :=
  (forall j, j < N -> j <> c -> get g r j <> v)
  /\ (forall i, i < N -> i <> r -> get g i c <> v)
  /\ (forall i j, i < N -> j < N -> i / 3 = r / 3 -> j / 3 = c / 3 ->
        (i, j) <> (r, c) -> get g i j <> v).

(** A grid whose only digit is a 5 in the top left corner. *)
Definition corner5 : Grid := set empty_grid 0 0 5.


(** ** Units: rows, columns and boxes *)

(** The cells of row [r], left to right. *)
Definition row_cells (g : Grid) (r : nat) : list Z :=
  (fun j => get g r j) <$> seq 0 N.

(** The cells of column [c], top to bottom. *)
Definition column_cells (g : Grid) (c : nat) : list Z :=
  (fun i => get g i c) <$> seq 0 N.

(** The cells of box [b]; boxes, and the cells of a box, are numbered row by
    row. *)
Definition box_cells (g : Grid) (b : nat) : list Z :=
  (fun k => get g (3 * (b / 3) + k / 3) (3 * (b mod 3) + k mod 3))
    <$> seq 0 N.

(** The 27 units of a grid. *)
Definition units (g : Grid) : list (list Z) :=
  (row_cells g <$> seq 0 N) ++ (column_cells g <$> seq 0 N)
  ++ (box_cells g <$> seq 0 N).

(** The non-zero values of a unit are pairwise different. *)
Definition no_duplicates (u : list Z) : Prop :=
  NoDup (filter (fun v => v <> 0%Z) u).

(** No row, column or box holds a digit twice. *)
Definition consistent (g : Grid) : Prop := Forall no_duplicates (units g).

(** No cell is empty. *)
Definition complete (g : Grid) : Prop :=
  forall r c, r < N -> c < N -> get g r c <> 0%Z.

(** A unit holds each of the digits 1-9 exactly once. *)
Definition each_digit_once (u : list Z) : Prop :=
  forall d, (1 <= d <= 9)%Z -> count_occ Z.eq_dec u d = 1.

(** A complete valid solution. *)
Definition valid_solution (g : Grid) : Prop :=
  complete g /\ Forall each_digit_once (units g).

(** Two different cells that share a row, a column or a box. *)
Definition peers (r c r' c' : nat) : Prop :=
  (r, c) <> (r', c')
  /\ (r = r' \/ c = c' \/ (r / 3 = r' / 3 /\ c / 3 = c' / 3)).

(** ** What a call of [backtrack] leaves behind *)

(** The effect of a call on the grid: [s] is the object on entry, [b] the
    result and [s'] the object on return. *)
Definition frame_post (s : Sudoku) (b : bool) (s' : Sudoku) : Prop :=
  shaped (grid s')
  /\ (in_range (grid s) -> in_range (grid s'))
  /\ (b = true -> timed_out s' = false /\ complete (grid s'))
  /\ (b = false -> timed_out s' = false -> grid s' = grid s)
  /\ (forall r c, r < N -> c < N -> get (grid s) r c <> 0%Z ->
        get (grid s') r c = get (grid s) r c).

Definition frame_pre (s : Sudoku) : Prop :=
  shaped (grid s) /\ timed_out s = false.

(** At the head of the loop the grid is the one the call was entered with,
    and the cell being tried is empty. *)
Definition frame_inv (row col : nat) (s0 s : Sudoku) : Prop :=
  row < N /\ col < N /\ get (grid s0) row col = 0%Z
  /\ grid s = grid s0 /\ shaped (grid s0) /\ timed_out s = false.

(** ** The course of a search *)

(** An event of the loop concerns a cell that is empty in [g0], and a
    candidate among the digits. *)
Definition on_empty_cell (g0 : Grid) (e : event) : Prop :=
  match e with
  | Checked _ => True
  | Tried r c v | Placed r c v _ =>
      r < N /\ c < N /\ get g0 r c = 0%Z /\ (1 <= v <= 9)%Z
  | Undone r c _ => r < N /\ c < N /\ get g0 r c = 0%Z
  end.

(** The grid an event leaves behind, when it writes one, is consistent. *)
Definition snapshot_consistent (e : event) : Prop :=
  match e with
  | Placed _ _ _ after | Undone _ _ after => consistent after
  | Checked _ | Tried _ _ _ => True
  end.

Definition trace_post (s : Sudoku) (b : bool) (s' : Sudoku) : Prop :=
  exists new,
    log s' = new ++ log s
    /\ Forall (on_empty_cell (grid s)) new
    /\ (consistent (grid s) ->
        consistent (grid s') /\ Forall snapshot_consistent new).

Definition trace_inv (row col : nat) (s0 s : Sudoku) : Prop :=
  frame_inv row col s0 s
  /\ exists new,
       log s = new ++ log s0
       /\ Forall (on_empty_cell (grid s0)) new
       /\ (consistent (grid s0) -> Forall snapshot_consistent new).

(** The events [new] of a call end with a failed deadline test, the only one
    among them; it was made at the entry of the outermost call, on the grid
    [g0] the call started with, or right after a placement, which is still
    in the grid of [s']. *)
Definition aborted_at_deadline (g0 : Grid) (s' : Sudoku) (new : list event)
  : Prop :=
  exists before,
    new = Checked true :: before
    /\ ~ In (Checked true) before
    /\ ((before = [] /\ grid s' = g0)
        \/ exists r c v rest,
             before = Placed r c v (grid s') :: rest
             /\ get (grid s') r c = v).

Definition abort_post (s : Sudoku) (b : bool) (s' : Sudoku) : Prop :=
  exists new,
    log s' = new ++ log s
    /\ ((timed_out s' = false /\ ~ In (Checked true) new)
        \/ (timed_out s' = true /\ b = false
            /\ aborted_at_deadline (grid s) s' new)).

Definition abort_inv (row col : nat) (s0 s : Sudoku) : Prop :=
  frame_inv row col s0 s
  /\ exists new, log s = new ++ log s0 /\ ~ In (Checked true) new.

(** ** Sample grids and clocks *)

(** A clock that stands still: the deadline never passes. *)
Definition frozen : nat -> Z := fun _ => 0%Z.

(** A clock that jumps six seconds ahead after its [k]-th reading. *)
Definition jumping (k : nat) : nat -> Z :=
  fun n => if n <=? k then 0%Z else 6000000000%Z.

(** Every cell holds a 1. *)
Definition ones : Grid := replicate N (replicate N 1%Z).

(** Every cell holds a 1, except the top left one, which is empty. *)
Definition ones_but_corner : Grid := set ones 0 0 0.

(** The first cell admits 1 and 2, the second cell nothing. *)
Definition dead_end : Grid :=
  [[0; 0; 3; 4; 5; 6; 7; 8; 9];
   [0; 0; 0; 0; 0; 0; 0; 0; 0];
   [0; 0; 0; 0; 0; 0; 0; 0; 0];
   [0; 1; 0; 0; 0; 0; 0; 0; 0];
   [0; 2; 0; 0; 0; 0; 0; 0; 0];
   [0; 0; 0; 0; 0; 0; 0; 0; 0];
   [0; 0; 0; 0; 0; 0; 0; 0; 0];
   [0; 0; 0; 0; 0; 0; 0; 0; 0];
   [0; 0; 0; 0; 0; 0; 0; 0; 0]]%Z.

(** A puzzle with three cells left to fill. *)
Definition nearly_done : Grid :=
  [[0; 3; 4; 6; 7; 8; 9; 1; 2];
   [6; 7; 2; 1; 9; 5; 3; 4; 8];
   [1; 9; 8; 3; 4; 2; 5; 6; 7];
   [8; 5; 9; 7; 6; 1; 4; 2; 3];
   [4; 2; 6; 8; 0; 3; 7; 9; 1];
   [7; 1; 3; 9; 2; 4; 8; 5; 6];
   [9; 6; 1; 5; 3; 7; 2; 8; 4];
   [2; 8; 7; 4; 1; 9; 6; 3; 5];
   [3; 4; 5; 2; 8; 6; 1; 7; 0]]%Z.

(** ** The text format in the words of the specification *)

(** The lines of a text: what lies between its newlines. *)
Fixpoint split_lines (s : text) : list text :=
  match s with
  | [] => []
  | c :: s' =>
      if Ascii.eqb c newline then [] :: split_lines s'
      else
        match split_lines s' with
        | [] => [[c]]
        | line :: lines => (c :: line) :: lines
        end
  end.

(** [s] contains the literal substring [p]. *)
Definition has_substring (p s : text) : Prop :=
  exists a b, s = a ++ p ++ b.

(** The ten digit characters, in order. *)
Definition digit_chars : text := list_ascii_of_string "0123456789".

(** The position of a character in a text, if it occurs. *)
Fixpoint position (c : ascii) (t : text) : option nat :=
  match t with
  | [] => None
  | d :: t' => if Ascii.eqb c d then Some 0 else S <$> position c t'
  end.

(** The cell value a character stands for: 0 for a dot, its numeric value
    for a digit; any other character stands for nothing. *)
Definition cell_of (c : ascii) : option Z :=
  if Ascii.eqb c "."%char then Some 0%Z
  else Z.of_nat <$> position c digit_chars.

(** The values a line supplies, left to right. *)
Definition line_values (line : text) : list Z := omap cell_of line.

(** [l], filled up to [n] elements with the default [d]. *)
Definition pad_to {A : Type} (n : nat) (d : A) (l : list A) : list A :=
  l ++ replicate (n - length l) d.

(** A row: the first nine values of its line, the columns not supplied
    being 0. *)
Definition spec_row (line : text) : list Z :=
  pad_to N 0%Z (take N (line_values line)).

(** The first nine lines that are not separators. *)
Definition kept_lines (file : text) : list text :=
  take N (List.filter (fun l => negb (found dashes l)) (split_lines file)).

(** The grid a text stands for: one row per kept line, the rows not
    supplied being empty. *)
Definition construct_spec (file : text) : Grid :=
  pad_to N (replicate N 0%Z) (spec_row <$> kept_lines file).

(** The character of a cell: a dot for 0, the digit otherwise. *)
Definition value_char (v : Z) : ascii :=
  if (v =? 0)%Z then "."%char
  else nth (Z.to_nat v) digit_chars "?"%char.

(** A line of the output: its characters and the newline that ends it. *)
Definition line_of (t : text) : text := t ++ [newline].

(** A data row: nine value characters, a bar after the third and after the
    sixth. *)
Definition data_row (ch : nat -> ascii) : text :=
  [ch 0; ch 1; ch 2; "|"%char; ch 3; ch 4; ch 5; "|"%char;
   ch 6; ch 7; ch 8].

(** Nine data rows, a line of dashes after the third and after the sixth. *)
Definition layout (ch : nat -> nat -> ascii) : text :=
  line_of (data_row (ch 0)) ++ line_of (data_row (ch 1))
  ++ line_of (data_row (ch 2)) ++ line_of separator
  ++ line_of (data_row (ch 3)) ++ line_of (data_row (ch 4))
  ++ line_of (data_row (ch 5)) ++ line_of separator
  ++ line_of (data_row (ch 6)) ++ line_of (data_row (ch 7))
  ++ line_of (data_row (ch 8)).

Definition to_text_spec (g : Grid) : text :=
  layout (fun i j => value_char (get g i j)).

(** ** Scan order and completions *)

(** Cell [(r', c')] is visited before [(r, c)] by the scan of
    [findEmptyCell]. *)
Definition scanned_before (r' c' r c : nat) : Prop :=
  r' < r \/ (r' = r /\ c' < c).

(** [g'] completes [g]: it keeps the digits of [g], and gives every empty
    cell of [g] a digit that none of the peers of the cell holds in [g']. *)
Definition completion (g g' : Grid) : Prop :=
  shaped g'
  /\ (forall r c, r < N -> c < N -> get g r c <> 0%Z ->
        get g' r c = get g r c)
  /\ (forall r c, r < N -> c < N -> get g r c = 0%Z ->
        (1 <= get g' r c <= 9)%Z
        /\ forall r' c', r' < N -> c' < N -> peers r c r' c' ->
             get g' r' c' <> get g' r c).

(** [g1] does not come after [g2] when the cells are read in scan order:
    the grids agree, or [g1] holds the smaller value at the first cell on
    which they differ. *)
Definition not_after (g1 g2 : Grid) : Prop :=
  (forall r c, r < N -> c < N -> get g1 r c = get g2 r c)
  \/ exists r c,
       r < N /\ c < N /\ (get g1 r c < get g2 r c)%Z
       /\ forall r' c', r' < N -> c' < N -> scanned_before r' c' r c ->
            get g1 r' c' = get g2 r' c'.

(** What the result of a search says about the completions of the grid it
    started from. *)
Definition search_post (s : Sudoku) (b : bool) (s' : Sudoku) : Prop :=
  (b = true ->
   completion (grid s) (grid s')
   /\ forall g', completion (grid s) g' -> not_after (grid s') g')
  /\ (b = false -> timed_out s' = false ->
      forall g', ~ completion (grid s) g').

(** Every clock reading from the call of [solve] on is within the time
    limit of the first one, which [solve] takes as [start_time]. *)
Definition on_time (now : nat -> Z) (s : Sudoku) : Prop :=
  forall k, reads s <= k -> (now k - now (reads s) <= TIME_LIMIT)%Z.

(** A deadline test that fails reads a time beyond the limit. *)
Definition clock_post (now : nat -> Z) (s : Sudoku) (b : bool)
    (s' : Sudoku) : Prop :=
  start_time s' = start_time s
  /\ reads s <= reads s'
  /\ (timed_out s' = true ->
      exists k, reads s <= k /\ (now k - start_time s > TIME_LIMIT)%Z).

Definition clock_inv (row col : nat) (s0 s : Sudoku) : Prop :=
  start_time s = start_time s0 /\ reads s0 <= reads s
  /\ timed_out s = false.

(** An object left over from an earlier call that timed out. *)
Definition stale : Sudoku :=
  {| grid := nearly_done; timed_out := true; start_time := 0;
     reads := 7; log := [] |}.

(** ** Showing a grid *)

(** The loop [while (std::getline(iss, line)) lines.push_back(line);] of
    [TUIClass::show_grid]. *)
Equations? read_lines (stream : text) : list text
  by wf (length stream) lt :=
  read_lines stream with inspect (getline stream) := {
    | exist _ None _ := []
    | exist _ (Some (line, rest)) _ := line :: read_lines rest }.
Proof.
  match goal with H : getline _ = Some _ |- _ => revert H end.
  clear. revert line rest.
  induction stream as [|c stream IH]; intros line rest; simpl;
    [discriminate|].
  destruct (Ascii.eqb c newline); [intros [= <- <-]; lia|].
  destruct (getline stream) as [[l r]|];
    [intros [= <- <-]; specialize (IH _ _ eq_refl); lia
    |intros [= <- <-]; simpl; lia].
Qed.

(** The height and the width [TUIClass::show_grid] gives its window:
    [lines.size() + 4] and [lines[0].length() + 4]. There is no [lines[0]]
    when no line was read: no size then. *)
Definition window_size (grid_str : text) : option (nat * nat) :=
  match read_lines grid_str with
  | [] => None
  | first :: others => Some (length (first :: others) + 4, length first + 4)
  end.
(** * Properties *)

(** ** Reading and writing cells *)

Ltac divmod3 x :=
  pose proof (Nat.div_mod_eq x 3);
  pose proof (Nat.mod_upper_bound x 3 ltac:(lia)).

Lemma shaped_row (g : Grid) (r : nat) :
  shaped g -> r < N -> length (g !!! r) = N.
Proof.
  intros [Hlen Hrows] Hr.
  rewrite Forall_lookup in Hrows. apply (Hrows r).
  apply list_lookup_lookup_total_lt. lia.
Qed.

Lemma get_set_eq (g : Grid) (r c : nat) (v : Z) :
  shaped g -> r < N -> c < N -> get (set g r c v) r c = v.
Proof.
  intros Hs Hr Hc. unfold get, set.
  rewrite list_lookup_total_insert_eq by (destruct Hs; lia).
  rewrite list_lookup_total_insert_eq; [done|].
  rewrite shaped_row by done. done.
Qed.

Lemma get_set_ne (g : Grid) (r c r' c' : nat) (v : Z) :
  (r, c) <> (r', c') -> get (set g r c v) r' c' = get g r' c'.
Proof.
  intros Hne. unfold get, set.
  destruct (decide (r = r')) as [<-|Hr].
  - destruct (decide (r < length g)) as [Hlt|Hge].
    + rewrite list_lookup_total_insert_eq by done.
      rewrite list_lookup_total_insert_ne; [done|congruence].
    + rewrite list_insert_ge by lia. done.
  - rewrite list_lookup_total_insert_ne by done. done.
Qed.

Lemma shaped_set (g : Grid) (r c : nat) (v : Z) :
  shaped g -> shaped (set g r c v).
Proof.
  intros Hs. unfold set.
  destruct (decide (r < length g)) as [Hlt|Hge].
  - destruct Hs as [Hlen Hrows]. split.
    + rewrite length_insert. done.
    + apply Forall_insert; [done|].
      rewrite length_insert. apply shaped_row; [by split|lia].
  - rewrite list_insert_ge by lia. done.
Qed.

Lemma Forall_lookup_total_or_default {A : Type} `{Inhabited A}
    (P : A -> Prop) (l : list A) (i : nat) :
  Forall P l -> P inhabitant -> P (l !!! i).
Proof.
  intros Hl Hd. rewrite list_lookup_total_alt.
  destruct (l !! i) as [x|] eqn:E; simpl; [|done].
  by eapply Forall_lookup_1.
Qed.

Lemma in_range_get (g : Grid) (r c : nat) :
  in_range g -> (0 <= get g r c <= 9)%Z.
Proof.
  intros Hg. unfold get.
  apply (Forall_lookup_total_or_default (fun v => (0 <= v <= 9)%Z)).
  - by apply (Forall_lookup_total_or_default
                (Forall (fun v => (0 <= v <= 9)%Z))).
  - vm_compute. split; discriminate.
Qed.

Lemma in_range_set (g : Grid) (r c : nat) (v : Z) :
  in_range g -> (0 <= v <= 9)%Z -> in_range (set g r c v).
Proof.
  intros Hg Hv. unfold set, in_range.
  apply Forall_insert; [done|].
  apply Forall_insert; [|done].
  by apply (Forall_lookup_total_or_default
              (Forall (fun v => (0 <= v <= 9)%Z))).
Qed.

(** Undoing a placement into an empty cell gives the grid back. *)
Lemma set_set_undo (g : Grid) (r c : nat) (v : Z) :
  shaped g -> r < N -> c < N -> get g r c = 0%Z ->
  set (set g r c v) r c 0 = g.
Proof.
  intros Hs Hr Hc H0. unfold set.
  rewrite list_lookup_total_insert_eq by (destruct Hs; lia).
  rewrite list_insert_insert_eq, list_insert_insert_eq.
  apply list_insert_id.
  assert (Hrow : g !! r = Some (g !!! r)).
  { apply list_lookup_lookup_total_lt. destruct Hs; lia. }
  rewrite Hrow. f_equal. symmetry.
  apply list_insert_id.
  rewrite <- H0. apply list_lookup_lookup_total_lt.
  rewrite shaped_row by done. done.
Qed.

(** ** The placement test *)

Lemma existsb_seq_false (f : nat -> bool) (n : nat) :
  existsb f (seq 0 n) = false <-> forall i, i < n -> f i = false.
Proof.
  split.
  - intros H i Hi. destruct (f i) eqn:E; [|done].
    rewrite <- H. symmetry. apply existsb_exists. exists i. split; [|done].
    apply in_seq. lia.
  - intros H. destruct (existsb f (seq 0 n)) eqn:E; [|done].
    apply existsb_exists in E as (i & Hi & Hf).
    apply in_seq in Hi. rewrite H in Hf by lia. done.
Qed.

Lemma isSafe_true (g : Grid) (r c : nat) (v : Z) :
  r < N -> c < N ->
  isSafe g r c v = true <-> occurs_nowhere g r c v.
Proof.
  intros Hr Hc. unfold isSafe, occurs_nowhere.
  destruct (existsb (fun j => get g r j =? v)%Z (seq 0 N)) eqn:E1.
  { split; [done|]. intros (H & _). exfalso.
    apply existsb_exists in E1 as (j & Hj & Hv).
    apply in_seq in Hj. apply Z.eqb_eq in Hv. apply (H j); [lia|done]. }
  destruct (existsb (fun i => get g i c =? v)%Z (seq 0 N)) eqn:E2.
  { split; [done|]. intros (_ & H & _). exfalso.
    apply existsb_exists in E2 as (i & Hi & Hv).
    apply in_seq in Hi. apply Z.eqb_eq in Hv. apply (H i); [lia|done]. }
  cbv zeta.
  destruct (existsb _ (seq 0 3)) eqn:E3.
  { split; [done|]. intros (_ & _ & H). exfalso.
    apply existsb_exists in E3 as (i & Hi & E3).
    apply existsb_exists in E3 as (j & Hj & Hv).
    apply in_seq in Hi. apply in_seq in Hj. apply Z.eqb_eq in Hv.
    divmod3 r. divmod3 c. unfold N in *.
    apply (H (r - r mod 3 + i) (c - c mod 3 + j)); [lia|lia| | |done].
    - divmod3 (r - r mod 3 + i). lia.
    - divmod3 (c - c mod 3 + j). lia. }
  split; [intros _|done].
  rewrite existsb_seq_false in E1, E2, E3.
  split; [|split].
  - intros j Hj. apply Z.eqb_neq. by apply E1.
  - intros i Hi. apply Z.eqb_neq. by apply E2.
  - intros i j Hi Hj Hbr Hbc.
    divmod3 r. divmod3 c. divmod3 i. divmod3 j.
    specialize (E3 (i mod 3) ltac:(lia)).
    rewrite existsb_seq_false in E3.
    specialize (E3 (j mod 3) ltac:(lia)).
    apply Z.eqb_neq.
    replace (r - r mod 3 + i mod 3) with i in E3 by lia.
    replace (c - c mod 3 + j mod 3) with j in E3 by lia.
    done.
Qed.

(** Case analysis on a number below a literal bound. *)
Ltac below j :=
  repeat (destruct j as [|j]; [|try lia]); try lia.

(** C2, as stated, fails: with 5 stored at (0,0) and nowhere else, 5 occurs
    in no other cell of row 0, column 0 or the first box, yet
    [isSafe 0 0 5] is false, because the scans also read (0,0). *)
Lemma isSafe_not_elsewhere_counterexample :
  ~ (isSafe corner5 0 0 5 = true <-> occurs_not_elsewhere corner5 0 0 5).
Proof.
  intros [_ H].
  assert (E : isSafe corner5 0 0 5 = false) by (vm_compute; reflexivity).
  rewrite E in H. enough (false = true) by discriminate. apply H.
  split; [|split].
  - intros j Hj Hne. unfold N in Hj. below j; vm_compute; discriminate.
  - intros i Hi Hne. unfold N in Hi. below i; vm_compute; discriminate.
  - intros i j Hi Hj _ _ Hne. unfold N in Hi, Hj.
    below i; below j; try (vm_compute; discriminate).
    congruence.
Qed.

(** C2 (amended): for every grid, row r, column c and value v,
    [isSafe r c v] is true iff v occurs in no cell of row r, of column c
    and of the 3x3 box of (r,c), the cell (r,c) included: the value stored
    at (r,c) is examined too, so when v is stored at (r,c) the result is
    false; when (r,c) holds another value (in the search it is empty), the
    result is true iff v does not occur elsewhere in the row, column and
    box. *)
Theorem isSafe_scans_whole_units (g : Grid) (r c : nat) (v : Z) :
  r < N -> c < N ->
  (isSafe g r c v = true <-> occurs_nowhere g r c v)
  /\ (get g r c = v -> isSafe g r c v = false)
  /\ (get g r c <> v ->
      (isSafe g r c v = true <-> occurs_not_elsewhere g r c v)).
Proof.
  intros Hr Hc. pose proof (isSafe_true g r c v Hr Hc) as Hsafe.
  split; [done|]. split.
  - intros Hv. destruct (isSafe g r c v); [|done].
    destruct Hsafe as [Hsafe _]. destruct (Hsafe eq_refl) as (Hrow & _).
    by destruct (Hrow c Hc).
  - intros Hv. rewrite Hsafe. split.
    + intros (Hrow & Hcol & Hbox). repeat split; eauto.
    + intros (Hrow & Hcol & Hbox). split; [|split].
      * intros j Hj. destruct (decide (j = c)) as [->|]; eauto.
      * intros i Hi. destruct (decide (i = r)) as [->|]; eauto.
      * intros i j Hi Hj Hbr Hbc.
        destruct (decide ((i, j) = (r, c))) as [[= -> ->]|]; eauto.
Qed.

Lemma isSafe_scans_whole_units_witness :
  0 < N /\ 0 < N
  /\ (isSafe corner5 0 0 5 = true <-> occurs_nowhere corner5 0 0 5)
  /\ (get corner5 0 0 = 5%Z -> isSafe corner5 0 0 5 = false)
  /\ (get corner5 0 0 <> 5%Z ->
      (isSafe corner5 0 0 5 = true <-> occurs_not_elsewhere corner5 0 0 5)).
Proof.
  split; [unfold N; lia|]. split; [unfold N; lia|].
  apply (isSafe_scans_whole_units corner5 0 0 5); unfold N; lia.
Defined.

(** ** Consistency, cell by cell *)

Lemma no_duplicates_lookup (u : list Z) :
  no_duplicates u <->
  (forall i j x, u !! i = Some x -> u !! j = Some x -> x <> 0%Z -> i = j).
Proof.
  unfold no_duplicates. induction u as [|a u IH].
  - split; [intros _ i j x Hi|intros _; constructor]. done.
  - rewrite filter_cons. split.
    + intros Hnd i j x Hi Hj Hx.
      assert (Hu : NoDup (filter (fun v => v <> 0%Z) u)).
      { destruct (decide (a <> 0%Z)); [|done].
        by apply NoDup_cons in Hnd as [_ Hnd]. }
      assert (Ha : forall k, u !! k = Some x -> a = x -> False).
      { intros k Hk <-. destruct (decide (a <> 0%Z)); [|done].
        apply NoDup_cons in Hnd as [Hnd _]. apply Hnd.
        apply list_elem_of_filter. split; [done|].
        apply list_elem_of_lookup. by exists k. }
      destruct i as [|i], j as [|j]; simpl in *; try done.
      * injection Hi as Hi. destruct (Ha j Hj Hi).
      * injection Hj as Hj. destruct (Ha i Hi Hj).
      * f_equal. destruct IH as [IH _]. by apply (IH Hu i j x).
    + intros H.
      assert (Hu : NoDup (filter (fun v => v <> 0%Z) u)).
      { destruct IH as [_ IH]. apply IH. intros i j x Hi Hj Hx.
        specialize (H (S i) (S j) x Hi Hj Hx). lia. }
      destruct (decide (a <> 0%Z)) as [Ha|]; [|done].
      apply NoDup_cons. split; [|done].
      intros [_ Hin]%list_elem_of_filter.
      apply list_elem_of_lookup in Hin as [j Hj].
      specialize (H 0 (S j) a eq_refl Hj Ha). lia.
Qed.

Lemma lookup_cells (f : nat -> Z) (n i : nat) (x : Z) :
  (f <$> seq 0 n) !! i = Some x <-> i < n /\ x = f i.
Proof.
  rewrite list_lookup_fmap. split.
  - destruct (seq 0 n !! i) as [k|] eqn:E; simpl; [|done].
    apply lookup_seq in E as [-> Hi]. intros [= <-]. done.
  - intros [Hi ->]. rewrite lookup_seq_lt by done. done.
Qed.

Lemma no_duplicates_cells (f : nat -> Z) (n : nat) :
  no_duplicates (f <$> seq 0 n) <->
  (forall i j, i < n -> j < n -> i <> j -> f i <> 0%Z -> f i <> f j).
Proof.
  rewrite no_duplicates_lookup. split.
  - intros H i j Hi Hj Hne Hnz Heq. apply Hne.
    apply (H i j (f i)); [| |done]; apply lookup_cells; done.
  - intros H i j x [Hi ->]%lookup_cells [Hj Heq]%lookup_cells Hnz.
    destruct (decide (i = j)) as [|Hne]; [done|].
    by destruct (H i j Hi Hj Hne Hnz).
Qed.

Lemma consistent_units (g : Grid) :
  consistent g <->
  (forall k, k < N ->
     no_duplicates (row_cells g k) /\ no_duplicates (column_cells g k)
     /\ no_duplicates (box_cells g k)).
Proof.
  unfold consistent, units.
  rewrite !Forall_app, !Forall_fmap, !Forall_seq. unfold compose.
  split.
  - intros (Hr & Hc & Hb) k Hk. repeat split; [apply Hr|apply Hc|apply Hb]; lia.
  - intros H. repeat split; intros k Hk; apply H; lia.
Qed.

(** Consistency says that a digit differs from the content of every peer
    of its cell. *)
Lemma consistent_peers (g : Grid) :
  consistent g <->
  (forall r c r' c', r < N -> c < N -> r' < N -> c' < N ->
     peers r c r' c' -> get g r c <> 0%Z -> get g r c <> get g r' c').
Proof.
  rewrite consistent_units. unfold row_cells, column_cells, box_cells.
  split.
  - intros H r c r' c' Hr Hc Hr' Hc' [Hne [<-|[<-|[Hbr Hbc]]]] Hnz.
    + destruct (H r Hr) as (Hrow & _).
      rewrite no_duplicates_cells in Hrow.
      apply Hrow; [done|done|congruence|done].
    + destruct (H c Hc) as (_ & Hcol & _).
      rewrite no_duplicates_cells in Hcol.
      apply Hcol; [done|done|congruence|done].
    + unfold N in *. divmod3 r. divmod3 c. divmod3 r'. divmod3 c'.
      destruct (H (3 * (r / 3) + c / 3) ltac:(lia)) as (_ & _ & Hbox).
      rewrite no_duplicates_cells in Hbox.
      specialize (Hbox (3 * (r mod 3) + c mod 3) (3 * (r' mod 3) + c' mod 3)).
      assert (E1 : (3 * (r / 3) + c / 3) / 3 = r / 3).
      { divmod3 (3 * (r / 3) + c / 3). lia. }
      assert (E2 : (3 * (r / 3) + c / 3) mod 3 = c / 3).
      { divmod3 (3 * (r / 3) + c / 3). lia. }
      assert (E3 : (3 * (r mod 3) + c mod 3) / 3 = r mod 3).
      { divmod3 (3 * (r mod 3) + c mod 3). lia. }
      assert (E4 : (3 * (r mod 3) + c mod 3) mod 3 = c mod 3).
      { divmod3 (3 * (r mod 3) + c mod 3). lia. }
      assert (E5 : (3 * (r' mod 3) + c' mod 3) / 3 = r' mod 3).
      { divmod3 (3 * (r' mod 3) + c' mod 3). lia. }
      assert (E6 : (3 * (r' mod 3) + c' mod 3) mod 3 = c' mod 3).
      { divmod3 (3 * (r' mod 3) + c' mod 3). lia. }
      rewrite E1, E2, E3, E4, E5, E6 in Hbox.
      replace (3 * (r / 3) + r mod 3) with r in Hbox by lia.
      replace (3 * (c / 3) + c mod 3) with c in Hbox by lia.
      replace (3 * (r / 3) + r' mod 3) with r' in Hbox by lia.
      replace (3 * (c / 3) + c' mod 3) with c' in Hbox by lia.
      apply Hbox; [lia|lia| |done].
      intros E. apply Hne. f_equal; lia.
  - intros H k Hk. split; [|split]; apply no_duplicates_cells.
    + intros i j Hi Hj Hne. apply H; [done..|].
      split; [congruence|by left].
    + intros i j Hi Hj Hne. apply H; [done..|].
      split; [congruence|by right; left].
    + intros i j Hi Hj Hne. unfold N in *.
      divmod3 k. divmod3 i. divmod3 j.
      apply H; [lia..|]. split.
      * intros [E1 E2]%pair_equal_spec. lia.
      * right; right. split.
        -- divmod3 (3 * (k / 3) + i / 3). divmod3 (3 * (k / 3) + j / 3). lia.
        -- divmod3 (3 * (k mod 3) + i mod 3).
           divmod3 (3 * (k mod 3) + j mod 3).
           lia.
Qed.

Lemma consistent_place (g : Grid) (r c : nat) (v : Z) :
  shaped g -> r < N -> c < N ->
  consistent g -> isSafe g r c v = true -> consistent (set g r c v).
Proof.
  intros Hs Hr Hc Hg Hsafe.
  apply isSafe_true in Hsafe as (Hrow & Hcol & Hbox); [|done..].
  rewrite consistent_peers in Hg. apply consistent_peers.
  intros a b a' b' Ha Hb Ha' Hb' [Hne Hunit].
  destruct (decide ((r, c) = (a, b))) as [[= <- <-]|Hp].
  - rewrite get_set_eq, get_set_ne by done. intros _ E.
    destruct Hunit as [<-|[<-|[Hbr Hbc]]].
    + by apply (Hrow b').
    + by apply (Hcol a').
    + by apply (Hbox a' b').
  - rewrite (get_set_ne _ _ _ a b) by done.
    destruct (decide ((r, c) = (a', b'))) as [[= <- <-]|Hq].
    + rewrite get_set_eq by done. intros _.
      destruct Hunit as [->|[->|[Hbr Hbc]]].
      * by apply Hrow.
      * by apply Hcol.
      * by apply Hbox.
    + rewrite get_set_ne by done. by apply Hg.
Qed.

Lemma consistent_undo (g : Grid) (r c : nat) :
  shaped g -> r < N -> c < N -> consistent g -> consistent (set g r c 0).
Proof.
  intros Hs Hr Hc Hg.
  rewrite consistent_peers in Hg. apply consistent_peers.
  intros a b a' b' Ha Hb Ha' Hb' [Hne Hunit].
  destruct (decide ((r, c) = (a, b))) as [[= <- <-]|Hp].
  - rewrite get_set_eq by done. done.
  - rewrite (get_set_ne _ _ _ a b) by done.
    destruct (decide ((r, c) = (a', b'))) as [[= <- <-]|Hq].
    + rewrite get_set_eq by done. done.
    + rewrite get_set_ne by done. by apply Hg.
Qed.

(** ** The scan for an empty cell *)

Lemma findEmptyCell_Some (g : Grid) (r c : nat) :
  findEmptyCell g = Some (r, c) -> r < N /\ c < N /\ get g r c = 0%Z.
Proof.
  unfold findEmptyCell.
  assert (H : forall rows, findEmptyFrom g rows = Some (r, c) ->
                In r rows /\ c < N /\ get g r c = 0%Z).
  { induction rows as [|k rows IH]; simpl; [done|].
    destruct (findEmptyCol g k) as [j|] eqn:E.
    - intros [= -> ->]. apply find_some in E as [Hj Hz].
      apply in_seq in Hj. apply Z.eqb_eq in Hz. split; [by left|]. split; [lia|done].
    - intros Hrest. destruct (IH Hrest) as (? & ? & ?). auto. }
  intros Hf. destruct (H _ Hf) as (Hin & ? & ?).
  apply in_seq in Hin. split; [lia|done].
Qed.

Lemma findEmptyCell_None (g : Grid) :
  findEmptyCell g = None -> complete g.
Proof.
  unfold findEmptyCell, complete.
  assert (H : forall rows, findEmptyFrom g rows = None ->
                forall r c, In r rows -> c < N -> get g r c <> 0%Z).
  { induction rows as [|k rows IH]; simpl; [done|].
    destruct (findEmptyCol g k) as [j|] eqn:E; [done|].
    intros Hrest r c [<-|Hin] Hc; [|by apply IH].
    apply Z.eqb_neq. apply (find_none _ _ E). apply in_seq. lia. }
  intros Hf r c Hr Hc. apply (H _ Hf); [|done]. apply in_seq. lia.
Qed.

(** ** A proof rule for [backtrack]

    [Pre] is assumed of the object when [backtrack] is entered, [Post]
    relates it to the result and the object on return, and [Inv row col s0]
    holds of the object at the head of the loop over the candidates for the
    cell [(row, col)]; [s0] is the object at the entry of that call. *)

Section Rule.

Variable now : nat -> Z.
Variable Pre : Sudoku -> Prop.
Variable Post : Sudoku -> bool -> Sudoku -> Prop.
Variable Inv : nat -> nat -> Sudoku -> Sudoku -> Prop.

Hypothesis late_rule : forall s,
  Pre s -> fst (deadline_check now s) = true ->
  Post s false (flag_timeout (snd (deadline_check now s))).

Hypothesis full_rule : forall s,
  Pre s -> fst (deadline_check now s) = false ->
  findEmptyCell (grid s) = None ->
  Post s true (snd (deadline_check now s)).

Hypothesis cell_rule : forall s row col,
  Pre s -> fst (deadline_check now s) = false ->
  findEmptyCell (grid s) = Some (row, col) ->
  Inv row col s (snd (deadline_check now s)).

Hypothesis none_rule : forall s0 row col s,
  Inv row col s0 s -> Post s0 false s.

Hypothesis try_rule : forall s0 row col s num,
  Inv row col s0 s -> (1 <= num <= 9)%Z ->
  Inv row col s0 (tried s row col num).

Hypothesis place_rule : forall s0 row col s num,
  Inv row col s0 s -> (1 <= num <= 9)%Z ->
  isSafe (grid s) row col num = true ->
  Pre (place s row col num).

Hypothesis found_rule : forall s0 row col s num s',
  Inv row col s0 s -> (1 <= num <= 9)%Z ->
  isSafe (grid s) row col num = true ->
  returns now (place s row col num) true s' ->
  Post (place s row col num) true s' ->
  Post s0 true s'.

Hypothesis abort_rule : forall s0 row col s num s',
  Inv row col s0 s -> (1 <= num <= 9)%Z ->
  isSafe (grid s) row col num = true ->
  returns now (place s row col num) false s' ->
  Post (place s row col num) false s' -> timed_out s' = true ->
  Post s0 false s'.

Hypothesis undo_rule : forall s0 row col s num s',
  Inv row col s0 s -> (1 <= num <= 9)%Z ->
  isSafe (grid s) row col num = true ->
  returns now (place s row col num) false s' ->
  Post (place s row col num) false s' -> timed_out s' = false ->
  Inv row col s0 (undo s' row col).

Lemma try_candidates_rule (recurse : Sudoku -> option (bool * Sudoku)) :
  (forall t b t', Pre t -> recurse t = Some (b, t') ->
     returns now t b t' /\ Post t b t') ->
  forall nums s0 row col s b s',
    Forall (fun num => 1 <= num <= 9)%Z nums ->
    Inv row col s0 s ->
    try_candidates recurse row col nums s = Some (b, s') ->
    Post s0 b s'.
Proof.
  intros Hrec. induction nums as [|num rest IH];
    intros s0 row col s b s' Hnums Hinv; simpl.
  - intros [= <- <-]. by eapply none_rule.
  - apply Forall_cons in Hnums as [Hnum Hrest].
    apply (try_rule _ _ _ _ num) in Hinv; [|done].
    change (grid s) with (grid (tried s row col num)).
    destruct (isSafe _ row col num) eqn:Hsafe; [|by apply IH].
    destruct (recurse (place _ row col num)) as [[b' t]|] eqn:Hcall; [|done].
    destruct (Hrec _ _ _ (place_rule _ _ _ _ _ Hinv Hnum Hsafe) Hcall)
      as [Hran Hpost].
    destruct b'.
    + intros [= <- <-]. eapply found_rule; eauto.
    + destruct (timed_out t) eqn:Hto.
      * intros [= <- <-]. eapply abort_rule; eauto.
      * apply IH; [done|]. eapply undo_rule; eauto.
Qed.

#[local] Arguments try_candidates : simpl never.

Lemma candidates_digits : Forall (fun num => 1 <= num <= 9)%Z candidates.
Proof. unfold candidates. repeat constructor; lia. Qed.

Lemma backtrack_rule (depth : nat) :
  forall s b s',
    Pre s -> backtrack now depth s = Some (b, s') -> Post s b s'.
Proof.
  induction depth as [|depth IH]; intros s b s' Hpre; simpl; [done|].
  assert (IH' : forall t b t', Pre t -> backtrack now depth t = Some (b, t') ->
                  returns now t b t' /\ Post t b t').
  { intros t c t' Ht Hrun. split; [by exists depth|by apply IH]. }
  pose proof (late_rule s Hpre) as Hl.
  pose proof (full_rule s Hpre) as Hf.
  pose proof (fun row col => cell_rule s row col Hpre) as Hc.
  simpl in Hl, Hf, Hc.
  destruct (now (reads s) - start_time s >? TIME_LIMIT)%Z.
  - intros [= <- <-]. by apply Hl.
  - destruct (findEmptyCell (grid s)) as [[row col]|] eqn:Hcell.
    + apply (try_candidates_rule (backtrack now depth) IH').
      * apply candidates_digits.
      * by apply Hc.
    + intros [= <- <-]. by apply Hf.
Qed.

End Rule.

(** ** The grid across a call of [backtrack] *)

Lemma frame_through_placement (s0 s s' : Sudoku) (row col : nat) (num : Z)
    (b : bool) :
  frame_inv row col s0 s -> (1 <= num <= 9)%Z ->
  frame_post (place s row col num) b s' ->
  (b = false -> timed_out s' = true) ->
  frame_post s0 b s'.
Proof.
  intros (Hrow & Hcol & Hzero & Hgrid & Hshape & Hto) Hnum
         (Hs' & Hrange & Htrue & Hfalse & Hframe) Hb.
  simpl in *. rewrite Hgrid in *.
  split; [done|]. split; [|split; [|split]].
  - intros Hr. apply Hrange. apply in_range_set; [done|lia].
  - done.
  - intros -> Hto'. rewrite Hb in Hto' by done. done.
  - intros r c Hr Hc Hnz.
    assert (Hne : (row, col) <> (r, c)) by (intros [= -> ->]; done).
    rewrite Hframe by (rewrite ?get_set_ne; done).
    by apply get_set_ne.
Qed.

Lemma backtrack_frame (now : nat -> Z) (depth : nat) (s : Sudoku)
    (b : bool) (s' : Sudoku) :
  frame_pre s -> backtrack now depth s = Some (b, s') -> frame_post s b s'.
Proof.
  apply (backtrack_rule now frame_pre frame_post frame_inv).
  - intros t [Hs Hto] _. unfold frame_post. simpl. split_and!; done.
  - intros t [Hs Hto] _ Hfull. unfold frame_post. simpl.
    split_and!; try done. intros _. split; [done|].
    by apply findEmptyCell_None.
  - intros t row col [Hs Hto] _ Hcell.
    apply findEmptyCell_Some in Hcell as (? & ? & ?). by split_and!.
  - intros s0 row col t (Hrow & Hcol & Hzero & Hgrid & Hshape & Hto).
    unfold frame_post. rewrite Hgrid. split_and!; done.
  - intros s0 row col t num Hinv _. exact Hinv.
  - intros s0 row col t num (Hrow & Hcol & Hzero & Hgrid & Hshape & Hto) _ _.
    split; simpl; [|done]. apply shaped_set. by rewrite Hgrid.
  - intros s0 row col t num t' Hinv Hnum _ _ Hpost.
    by apply (frame_through_placement s0 t t' row col num true).
  - intros s0 row col t num t' Hinv Hnum _ _ Hpost Hto.
    by apply (frame_through_placement s0 t t' row col num false).
  - intros s0 row col t num t'
           (Hrow & Hcol & Hzero & Hgrid & Hshape & Hto) Hnum _ _
           (Hs' & _ & _ & Hfalse & _) Hto'.
    split_and!; try done. simpl.
    rewrite Hfalse by done. simpl. rewrite Hgrid.
    by apply set_set_undo.
Qed.

Lemma frame_inv_undo (now : nat -> Z) (depth : nat) (s0 s t : Sudoku)
    (row col : nat) (num : Z) :
  frame_inv row col s0 s ->
  backtrack now depth (place s row col num) = Some (false, t) ->
  timed_out t = false ->
  frame_inv row col s0 (undo t row col).
Proof.
  intros (Hrow & Hcol & Hzero & Hgrid & Hshape & Hto) Hrun Hto'.
  apply backtrack_frame in Hrun as (_ & _ & _ & Hfalse & _).
  - split_and!; try done. simpl. rewrite Hfalse by done. simpl.
    rewrite Hgrid. by apply set_set_undo.
  - split; simpl; [|done]. apply shaped_set. by rewrite Hgrid.
Qed.

(** ** Termination *)

Lemma empties_insert (row : list Z) (c : nat) (v : Z) :
  row !! c = Some 0%Z -> v <> 0%Z ->
  S (length (filter (fun x => x = 0%Z) (<[c := v]> row)))
  = length (filter (fun x => x = 0%Z) row).
Proof.
  intros Hc Hv. revert c Hc.
  induction row as [|a row IH]; intros [|c] Hc; simpl in *; try done.
  - injection Hc as ->. rewrite !filter_cons.
    destruct (decide (v = 0%Z)); [done|].
    destruct (decide (0%Z = 0%Z)); done.
  - rewrite !filter_cons. specialize (IH c Hc).
    destruct (decide (a = 0%Z)); simpl; lia.
Qed.

Lemma count_empty_set (g : Grid) (r c : nat) (v : Z) :
  shaped g -> r < N -> c < N -> get g r c = 0%Z -> v <> 0%Z ->
  S (count_empty (set g r c v)) = count_empty g.
Proof.
  intros Hs Hr Hc Hz Hv. unfold count_empty, set.
  assert (Hrow : g !! r = Some (g !!! r)).
  { apply list_lookup_lookup_total_lt. destruct Hs; lia. }
  assert (Hcell : (g !!! r) !! c = Some 0%Z).
  { rewrite <- Hz. apply list_lookup_lookup_total_lt.
    by rewrite shaped_row. }
  rewrite insert_take_drop by (destruct Hs; lia).
  replace (concat g)
    with (concat (take r g ++ g !!! r :: drop (S r) g))
    by (by rewrite take_drop_middle).
  rewrite !concat_app, !concat_cons, !filter_app, !length_app.
  pose proof (empties_insert (g !!! r) c v Hcell Hv). lia.
Qed.

Lemma count_empty_bound (g : Grid) : shaped g -> count_empty g <= N * N.
Proof.
  intros [Hlen Hrows]. unfold count_empty.
  etransitivity; [apply length_filter|].
  rewrite <- Hlen at 1. clear Hlen.
  induction Hrows as [|row g Hrow _ IH]; [simpl; lia|].
  rewrite concat_cons, length_app, length_cons. lia.
Qed.

Lemma try_candidates_cons (recurse : Sudoku -> option (bool * Sudoku))
    (row col : nat) (num : Z) (rest : list Z) (s : Sudoku) :
  try_candidates recurse row col (num :: rest) s =
  let s1 := tried s row col num in
  if isSafe (grid s1) row col num then
    match recurse (place s1 row col num) with
    | None => None
    | Some (true, s') => Some (true, s')
    | Some (false, s') =>
        if timed_out s' then Some (false, s')
        else try_candidates recurse row col rest (undo s' row col)
    end
  else try_candidates recurse row col rest s1.
Proof. reflexivity. Qed.

Lemma backtrack_S (now : nat -> Z) (depth : nat) (s : Sudoku) :
  backtrack now (S depth) s =
  let (late, s1) := deadline_check now s in
  if late then Some (false, flag_timeout s1)
  else
    match findEmptyCell (grid s1) with
    | None => Some (true, s1)
    | Some (row, col) =>
        try_candidates (backtrack now depth) row col candidates s1
    end.
Proof. reflexivity. Qed.

Lemma backtrack_returns (now : nat -> Z) (depth : nat) :
  forall s, frame_pre s -> count_empty (grid s) < depth ->
    exists r, backtrack now depth s = Some r.
Proof.
  induction depth as [|depth IH]; intros s Hpre Hfuel; [lia|].
  rewrite backtrack_S. unfold deadline_check.
  destruct (now (reads s) - start_time s >? TIME_LIMIT)%Z; [by eexists|].
  cbn [grid].
  destruct (findEmptyCell (grid s)) as [[row col]|] eqn:Hcell; [|by eexists].
  apply findEmptyCell_Some in Hcell as (Hrow & Hcol & Hzero).
  destruct Hpre as [Hshape Hto].
  match goal with |- context [try_candidates _ _ _ _ ?t] =>
    assert (Hinv : frame_inv row col s t) by (by split_and!);
    generalize dependent t
  end.
  pose proof candidates_digits as Hnums. revert Hnums.
  generalize candidates as nums.
  induction nums as [|num rest IHn]; intros Hnums t Hinv; [by eexists|].
  apply Forall_cons in Hnums as [Hnum Hrest].
  rewrite try_candidates_cons. cbv zeta.
  assert (Hinv' : frame_inv row col s (tried t row col num)) by exact Hinv.
  destruct (isSafe _ row col num); [|by apply IHn].
  destruct Hinv as (_ & _ & _ & Hgrid & _ & Hto') .
  destruct (IH (place (tried t row col num) row col num)) as [[[|] t'] Hrun].
  - split; simpl; [|done]. apply shaped_set. by rewrite Hgrid.
  - simpl. rewrite Hgrid.
    pose proof (count_empty_set (grid s) row col num Hshape Hrow Hcol Hzero).
    lia.
  - rewrite Hrun. by eexists.
  - rewrite Hrun. destruct (timed_out t') eqn:Hto''; [by eexists|].
    apply IHn; [done|].
    by apply (frame_inv_undo now depth s (tried t row col num) t' row col num).
Qed.

Lemma try_candidates_mono (rec1 rec2 : Sudoku -> option (bool * Sudoku))
    (row col : nat) (nums : list Z) :
  (forall t r, rec1 t = Some r -> rec2 t = Some r) ->
  forall s r,
    try_candidates rec1 row col nums s = Some r ->
    try_candidates rec2 row col nums s = Some r.
Proof.
  intros Hrec. induction nums as [|num rest IH]; intros s r; [done|].
  rewrite !try_candidates_cons. cbv zeta.
  destruct (isSafe _ row col num); [|by apply IH].
  destruct (rec1 (place _ row col num)) as [[[|] t]|] eqn:Hcall; [| |done].
  - by rewrite (Hrec _ _ Hcall).
  - rewrite (Hrec _ _ Hcall). destruct (timed_out t); [done|]. by apply IH.
Qed.

(** A larger bound on the depth does not change the result. *)
Lemma backtrack_mono (now : nat -> Z) (depth depth' : nat) :
  depth <= depth' ->
  forall s r, backtrack now depth s = Some r -> backtrack now depth' s = Some r.
Proof.
  revert depth'. induction depth as [|depth IH]; intros depth' Hle s r;
    [done|].
  destruct depth' as [|depth']; [lia|].
  rewrite !backtrack_S. unfold deadline_check.
  destruct (now (reads s) - start_time s >? TIME_LIMIT)%Z; [done|].
  cbn [grid].
  destruct (findEmptyCell (grid s)) as [[row col]|]; [|done].
  apply try_candidates_mono. apply IH. lia.
Qed.

(** ** The events of a search *)

Lemma on_empty_cell_before (g0 : Grid) (row col : nat) (num : Z) (e : event) :
  get g0 row col = 0%Z ->
  on_empty_cell (set g0 row col num) e -> on_empty_cell g0 e.
Proof.
  intros Hzero.
  assert (H : forall r c, get (set g0 row col num) r c = 0%Z ->
                get g0 r c = 0%Z).
  { intros r c. destruct (decide ((row, col) = (r, c))) as [[= <- <-]|Hne].
    - done.
    - by rewrite get_set_ne. }
  destruct e as [late|r c v|r c v after|r c after];
    unfold on_empty_cell; [done|..].
  - intros (? & ? & ? & ?). split_and!; auto; lia.
  - intros (? & ? & ? & ?). split_and!; auto; lia.
  - intros (? & ? & ?). split_and!; auto.
Qed.

Lemma trace_through_placement (now : nat -> Z) (s0 s s' : Sudoku)
    (row col : nat) (num : Z) (b : bool) :
  trace_inv row col s0 s -> (1 <= num <= 9)%Z ->
  isSafe (grid s) row col num = true ->
  trace_post (place s row col num) b s' ->
  trace_post s0 b s'.
Proof.
  intros [(Hrow & Hcol & Hzero & Hgrid & Hshape & Hto)
          (newL & HlogL & HokL & HconsL)] Hnum Hsafe
         (newI & HlogI & HokI & HconsI).
  simpl in *. rewrite Hgrid in *.
  exists (newI ++ Placed row col num (set (grid s0) row col num) :: newL).
  split; [|split].
  - rewrite HlogI, HlogL. by rewrite <- app_assoc.
  - apply Forall_app. split.
    + eapply Forall_impl; [exact HokI|].
      intros e. by apply on_empty_cell_before.
    + apply Forall_cons. split; [|done].
      unfold on_empty_cell. split_and!; (done || lia).
  - intros Hc0.
    assert (Hc1 : consistent (set (grid s0) row col num))
      by (by apply consistent_place).
    destruct (HconsI Hc1) as [Hc' HsnapI]. split; [done|].
    apply Forall_app. split; [done|].
    apply Forall_cons. split; [done|by apply HconsL].
Qed.

Lemma backtrack_trace (now : nat -> Z) (depth : nat) (s : Sudoku)
    (b : bool) (s' : Sudoku) :
  frame_pre s -> backtrack now depth s = Some (b, s') -> trace_post s b s'.
Proof.
  apply (backtrack_rule now frame_pre trace_post trace_inv).
  - intros t _ Hlate. simpl in Hlate. exists [Checked true].
    simpl. rewrite Hlate.
    split_and!; [done|by repeat constructor|].
    intros Hc. split; [done|by repeat constructor].
  - intros t _ Hlate _. simpl in Hlate. exists [Checked false].
    simpl. rewrite Hlate.
    split_and!; [done|by repeat constructor|].
    intros Hc. split; [done|by repeat constructor].
  - intros t row col [Hs Hto] Hlate Hcell. simpl in Hlate.
    apply findEmptyCell_Some in Hcell as (? & ? & ?).
    split; [by split_and!|].
    exists [Checked false]. simpl. rewrite Hlate.
    split_and!; [done|by repeat constructor|].
    intros Hc. by repeat constructor.
  - intros s0 row col t [(_ & _ & _ & Hgrid & _) (new & Hlog & Hok & Hcons)].
    exists new. rewrite Hgrid. split_and!; [done|done|].
    intros Hc. split; [done|by apply Hcons].
  - intros s0 row col t num [Hframe (new & Hlog & Hok & Hcons)] Hnum.
    split; [exact Hframe|].
    destruct Hframe as (? & ? & ? & _).
    exists (Tried row col num :: new). simpl. rewrite Hlog.
    split_and!; [done| |].
    + apply Forall_cons. split; [|done].
      unfold on_empty_cell. split_and!; (done || lia).
    + intros Hc. apply Forall_cons. split; [done|by apply Hcons].
  - intros s0 row col t num [(? & ? & ? & Hgrid & ? & ?) _] _ _.
    split; simpl; [|done]. apply shaped_set. by rewrite Hgrid.
  - intros s0 row col t num t' Hinv Hnum Hsafe _ Hpost.
    by apply (trace_through_placement now s0 t t' row col num true).
  - intros s0 row col t num t' Hinv Hnum Hsafe _ Hpost _.
    by apply (trace_through_placement now s0 t t' row col num false).
  - intros s0 row col t num t' [Hframe (newL & HlogL & HokL & HconsL)]
           Hnum Hsafe [d Hrun] (newI & HlogI & HokI & HconsI) Hto'.
    split; [by apply (frame_inv_undo now d s0 t t' row col num)|].
    pose proof Hframe as (Hrow & Hcol & Hzero & Hgrid & Hshape & Hto).
    assert (Hpre : frame_pre (place t row col num)).
    { split; simpl; [|done]. apply shaped_set. by rewrite Hgrid. }
    destruct (backtrack_frame now d _ _ _ Hpre Hrun) as (Hshape' & _).
    simpl in HlogI, HokI, HconsI. rewrite Hgrid in *.
    exists (Undone row col (set (grid t') row col 0) :: newI
            ++ Placed row col num (set (grid s0) row col num) :: newL).
    split_and!.
    + simpl. rewrite HlogI, HlogL. by rewrite <- app_assoc.
    + apply Forall_cons. split; [by split_and!|].
      apply Forall_app. split.
      * eapply Forall_impl; [exact HokI|].
        intros e. by apply on_empty_cell_before.
      * apply Forall_cons. split; [|done].
        unfold on_empty_cell. split_and!; (done || lia).
    + intros Hc0.
      assert (Hc1 : consistent (set (grid s0) row col num))
        by (by apply consistent_place).
      destruct (HconsI Hc1) as [Hc' HsnapI].
      apply Forall_cons. split; [by apply consistent_undo|].
      apply Forall_app. split; [done|].
      apply Forall_cons. split; [done|by apply HconsL].
Qed.

(** ** The deadline *)

Lemma backtrack_abort (now : nat -> Z) (depth : nat) (s : Sudoku)
    (b : bool) (s' : Sudoku) :
  frame_pre s -> backtrack now depth s = Some (b, s') -> abort_post s b s'.
Proof.
  apply (backtrack_rule now frame_pre abort_post abort_inv).
  - intros t _ Hlate. simpl in Hlate. exists [Checked true].
    simpl. rewrite Hlate. split; [done|]. right. split_and!; [done..|].
    exists []. split_and!; [done|by intros []|by left].
  - intros t [_ Hto] Hlate _. simpl in Hlate. exists [Checked false].
    simpl. rewrite Hlate. split; [done|]. left. split; [done|].
    by intros [|[]].
  - intros t row col [Hs Hto] Hlate Hcell. simpl in Hlate.
    apply findEmptyCell_Some in Hcell as (? & ? & ?).
    split; [by split_and!|].
    exists [Checked false]. simpl. rewrite Hlate. split; [done|].
    by intros [|[]].
  - intros s0 row col t [(_ & _ & _ & _ & _ & Hto) (new & Hlog & Hnew)].
    exists new. split; [done|]. by left.
  - intros s0 row col t num [Hframe (new & Hlog & Hnew)] _.
    split; [exact Hframe|].
    exists (Tried row col num :: new). simpl. rewrite Hlog. split; [done|].
    by intros [|].
  - intros s0 row col t num [(? & ? & ? & Hgrid & ? & ?) _] _ _.
    split; simpl; [|done]. apply shaped_set. by rewrite Hgrid.
  - intros s0 row col t num t' [Hframe (newL & HlogL & HnewL)] _ _ _
           (newI & HlogI & [[Hto' HnewI]|(_ & [=] & _)]).
    exists (newI ++ Placed row col num (set (grid t) row col num) :: newL).
    split.
    + rewrite HlogI. simpl. rewrite HlogL. by rewrite <- app_assoc.
    + left. split; [done|].
      rewrite in_app_iff. intros [|[|]]; done.
  - intros s0 row col t num t' [Hframe (newL & HlogL & HnewL)] _ _ _
           (newI & HlogI & [[Hto' _]|(_ & _ & before & -> & Hbefore & Hlast)])
           Hto; [congruence|].
    destruct Hframe as (Hrow & Hcol & Hzero & Hgrid & Hshape & _).
    exists (Checked true :: before
            ++ Placed row col num (set (grid t) row col num) :: newL).
    split.
    + rewrite HlogI. simpl. rewrite HlogL. by rewrite <- app_assoc.
    + right. split_and!; [done..|].
      eexists. split_and!; [done| |].
      * rewrite in_app_iff. intros [|[|]]; done.
      * right. destruct Hlast as [[-> Hg]|(r & c & v & rest & -> & Hv)].
        -- exists row, col, num, newL. simpl in Hg. rewrite Hg.
           split; [done|]. apply get_set_eq; [|done..]. by rewrite Hgrid.
        -- exists r, c, v. eexists. split; [|done]. by simpl.
  - intros s0 row col t num t' [Hframe (newL & HlogL & HnewL)] _ _ [d Hrun]
           (newI & HlogI & [[_ HnewI]|(Hto' & _)]) Hto; [|congruence].
    split; [by apply (frame_inv_undo now d s0 t t' row col num)|].
    exists (Undone row col (set (grid t') row col 0) :: newI
            ++ Placed row col num (set (grid t) row col num) :: newL).
    split.
    + simpl. rewrite HlogI. simpl. rewrite HlogL. by rewrite <- app_assoc.
    + intros [|Hin]; [done|].
      rewrite in_app_iff in Hin. destruct Hin as [|[|]]; done.
Qed.

(** ** The top-level call *)

Lemma start_pre (now : nat -> Z) (s : Sudoku) :
  shaped (grid s) -> frame_pre (start now s).
Proof. intros Hs. by split. Qed.

Lemma solve_frame (now : nat -> Z) (depth : nat) (s : Sudoku) (b : bool)
    (s' : Sudoku) :
  shaped (grid s) -> solve now depth s = Some (b, s') -> frame_post s b s'.
Proof.
  intros Hs Hrun. change (frame_post (start now s) b s').
  by apply (backtrack_frame now depth); [apply start_pre|].
Qed.

Lemma solve_trace (now : nat -> Z) (depth : nat) (s : Sudoku) (b : bool)
    (s' : Sudoku) :
  shaped (grid s) -> solve now depth s = Some (b, s') -> trace_post s b s'.
Proof.
  intros Hs Hrun. change (trace_post (start now s) b s').
  by apply (backtrack_trace now depth); [apply start_pre|].
Qed.

Lemma solve_abort (now : nat -> Z) (depth : nat) (s : Sudoku) (b : bool)
    (s' : Sudoku) :
  shaped (grid s) -> solve now depth s = Some (b, s') -> abort_post s b s'.
Proof.
  intros Hs Hrun. change (abort_post (start now s) b s').
  by apply (backtrack_abort now depth); [apply start_pre|].
Qed.

Lemma shaped_literal (g : Grid) :
  length g = N -> forallb (fun r => length r =? N) g = true -> shaped g.
Proof.
  intros Hlen Hrows. split; [done|].
  apply Forall_forall. intros r Hr.
  rewrite forallb_forall in Hrows. apply Nat.eqb_eq. apply Hrows.
  by apply list_elem_of_In.
Qed.

(** C9: a cell that holds a digit when [solve] is called holds the same
    digit when [solve] returns, whatever the result; every candidate tried,
    every placement and every undo of the search is at a cell that was empty
    when [solve] was called. *)
Theorem solve_keeps_givens (now : nat -> Z) (depth : nat) (s : Sudoku)
    (b : bool) (s' : Sudoku) :
  shaped (grid s) ->
  solve now depth s = Some (b, s') ->
  (forall r c, r < N -> c < N -> get (grid s) r c <> 0%Z ->
     get (grid s') r c = get (grid s) r c)
  /\ exists new,
       log s' = new ++ log s /\ Forall (on_empty_cell (grid s)) new.
Proof.
  intros Hs Hrun. split.
  - by destruct (solve_frame now depth s b s' Hs Hrun) as (_ & _ & _ & _ & H).
  - destruct (solve_trace now depth s b s' Hs Hrun) as (new & Hlog & Hok & _).
    by exists new.
Qed.

Lemma solve_keeps_givens_witness :
  shaped nearly_done
  /\ exists s',
       solve frozen 82 (fresh nearly_done) = Some (true, s')
       /\ (forall r c, r < N -> c < N -> get nearly_done r c <> 0%Z ->
             get (grid s') r c = get nearly_done r c)
       /\ exists new,
            log s' = new ++ [] /\ Forall (on_empty_cell nearly_done) new.
Proof.
  assert (Hs : shaped nearly_done) by (by apply shaped_literal).
  split; [exact Hs|].
  eexists. split; [vm_compute; reflexivity|].
  apply (solve_keeps_givens frozen 82 (fresh nearly_done) true _ Hs).
  vm_compute. reflexivity.
Defined.

(** C3, as stated, fails on Exhausted: on [dead_end] the search places 1
    at (0,0), later undoes it, reports Exhausted, and the grid after the
    call is the grid before the call, with no assigned cell left in it. *)
Lemma exhausted_leaves_partial_state_counterexample :
  exists s',
    solve frozen 82 (fresh dead_end) = Some (false, s')
    /\ outcome (false, s') = Exhausted
    /\ (exists after, In (Placed 0 0 1 after) (log s'))
    /\ grid s' = dead_end.
Proof.
  eexists. split; [vm_compute; reflexivity|].
  split; [reflexivity|]. split; [|reflexivity].
  eexists. cbn [log]. repeat first [left; reflexivity | right].
Qed.

(** C3 (amended): when [solve] returns Exhausted the grid after the call
    equals the grid before the call, every placement having been undone;
    when it returns TimedOut the grid is left as it was at the failed
    deadline test: the cells that held a digit before the call keep it, and
    either nothing was placed yet or the last placement, with the grid it
    produced, is still there. *)
Theorem solve_failure_grid (now : nat -> Z) (depth : nat) (s : Sudoku)
    (b : bool) (s' : Sudoku) :
  shaped (grid s) ->
  solve now depth s = Some (b, s') ->
  (outcome (b, s') = Exhausted -> grid s' = grid s)
  /\ (outcome (b, s') = TimedOut ->
      (forall r c, r < N -> c < N -> get (grid s) r c <> 0%Z ->
         get (grid s') r c = get (grid s) r c)
      /\ exists new,
           log s' = new ++ log s /\ aborted_at_deadline (grid s) s' new).
Proof.
  intros Hs Hrun.
  destruct (solve_frame now depth s b s' Hs Hrun)
    as (_ & _ & _ & Hfalse & Hframe).
  destruct (solve_abort now depth s b s' Hs Hrun)
    as (new & Hlog & Habort).
  unfold outcome. simpl. split.
  - destruct b; [done|]. destruct (timed_out s'); [done|]. intros _. auto.
  - destruct b; [done|]. destruct (timed_out s') eqn:Hto; [|done].
    intros _. split; [done|].
    exists new. split; [done|].
    by destruct Habort as [[? _]|(_ & _ & ?)].
Qed.

Lemma solve_failure_grid_witness :
  shaped dead_end
  /\ exists s',
       solve frozen 82 (fresh dead_end) = Some (false, s')
       /\ (outcome (false, s') = Exhausted -> grid s' = dead_end)
       /\ (outcome (false, s') = TimedOut ->
           (forall r c, r < N -> c < N -> get dead_end r c <> 0%Z ->
              get (grid s') r c = get dead_end r c)
           /\ exists new,
                log s' = new ++ [] /\ aborted_at_deadline dead_end s' new).
Proof.
  assert (Hs : shaped dead_end) by (by apply shaped_literal).
  split; [exact Hs|].
  eexists. split; [vm_compute; reflexivity|].
  apply (solve_failure_grid frozen 82 (fresh dead_end) false _ Hs).
  vm_compute. reflexivity.
Defined.

(** A search cut short by the deadline keeps its placements. *)
Lemma timed_out_run :
  exists s',
    solve (jumping 2) 82 (fresh nearly_done) = Some (false, s')
    /\ outcome (false, s') = TimedOut
    /\ get (grid s') 0 0 = 5%Z /\ get (grid s') 4 4 = 5%Z.
Proof.
  eexists. split; [vm_compute; reflexivity|]. by vm_compute.
Qed.

(** C10: every call of [solve] returns: the result does not depend on the
    bound on the nesting depth once the bound exceeds the number of empty
    cells, which is at most 81; and a placement into the cell found by
    [findEmptyCell] leaves fewer empty cells for the nested call. *)
Theorem solve_terminates (now : nat -> Z) (s : Sudoku) :
  shaped (grid s) ->
  count_empty (grid s) <= 81
  /\ (exists r, forall depth,
        count_empty (grid s) < depth -> solve now depth s = Some r)
  /\ (forall g row col num,
        shaped g -> findEmptyCell g = Some (row, col) ->
        (1 <= num <= 9)%Z ->
        count_empty (set g row col num) < count_empty g).
Proof.
  intros Hs. split; [|split].
  - by apply count_empty_bound.
  - destruct (backtrack_returns now (S (count_empty (grid s))) (start now s))
      as [r Hr]; [by apply start_pre|simpl; lia|].
    exists r. intros depth Hdepth. unfold solve.
    apply (backtrack_mono now (S (count_empty (grid s)))); [lia|done].
  - intros g row col num Hg Hcell Hnum.
    apply findEmptyCell_Some in Hcell as (Hrow & Hcol & Hzero).
    pose proof (count_empty_set g row col num Hg Hrow Hcol Hzero). lia.
Qed.

Lemma solve_terminates_witness :
  shaped dead_end
  /\ count_empty dead_end <= 81
  /\ (exists r, forall depth,
        count_empty dead_end < depth ->
        solve frozen depth (fresh dead_end) = Some r)
  /\ (forall g row col num,
        shaped g -> findEmptyCell g = Some (row, col) ->
        (1 <= num <= 9)%Z ->
        count_empty (set g row col num) < count_empty g).
Proof.
  assert (Hs : shaped dead_end) by (by apply shaped_literal).
  split; [exact Hs|].
  exact (solve_terminates frozen (fresh dead_end) Hs).
Defined.

(** ** Solved grids *)

Lemma units_Forall (P : list Z -> Prop) (g : Grid) :
  Forall P (units g) <->
  (forall k, k < N ->
     P (row_cells g k) /\ P (column_cells g k) /\ P (box_cells g k)).
Proof.
  unfold units.
  rewrite !Forall_app, !Forall_fmap, !Forall_seq. unfold compose.
  split.
  - intros (Hr & Hc & Hb) k Hk. split_and!; [apply Hr|apply Hc|apply Hb]; lia.
  - intros H. split_and!; intros k Hk; apply H; lia.
Qed.

Lemma filter_nonzero_all (u : list Z) :
  Forall (fun v => v <> 0%Z) u -> filter (fun v => v <> 0%Z) u = u.
Proof.
  induction 1 as [|a u Ha _ IH]; [done|].
  rewrite filter_cons. destruct (decide (a <> 0%Z)); [|done].
  by rewrite IH.
Qed.

Lemma digits_once (u : list Z) :
  length u = N -> Forall (fun v => 1 <= v <= 9)%Z u ->
  no_duplicates u -> each_digit_once u.
Proof.
  intros Hlen Hrange Hnd. unfold no_duplicates in Hnd.
  rewrite filter_nonzero_all in Hnd
    by (eapply Forall_impl; [exact Hrange|]; simpl; lia).
  apply NoDup_ListNoDup in Hnd. intros d Hd.
  destruct (NoDup_count_occ' Z.eq_dec u) as [Hocc _]. apply (Hocc Hnd).
  apply (NoDup_length_incl Hnd (l' := candidates)).
  - rewrite Hlen. done.
  - intros v Hv. rewrite Forall_forall in Hrange.
    apply list_elem_of_In, Hrange in Hv.
    unfold candidates. simpl. lia.
  - unfold candidates. simpl. lia.
Qed.

Lemma complete_consistent_valid (g : Grid) :
  complete g -> in_range g -> consistent g -> valid_solution g.
Proof.
  intros Hfull Hrange Hcons. split; [done|].
  rewrite consistent_units in Hcons. apply units_Forall.
  assert (Hcell : forall r c, r < N -> c < N -> (1 <= get g r c <= 9)%Z).
  { intros r c Hr Hc. pose proof (in_range_get g r c Hrange).
    pose proof (Hfull r c Hr Hc). lia. }
  intros k Hk. destruct (Hcons k Hk) as (Hrow & Hcol & Hbox).
  unfold row_cells, column_cells, box_cells in *.
  split_and!; (apply digits_once; [by rewrite length_fmap, length_seq| |done]);
    apply Forall_fmap, Forall_seq; intros i Hi; cbv beta; apply Hcell;
    try lia.
  - unfold N in *. divmod3 k. divmod3 i. lia.
  - unfold N in *. divmod3 k. divmod3 i. lia.
Qed.

(** C1, as stated, fails: on the grid of 81 ones [solve] finds no empty
    cell and returns Solved at once, and the grid is not a valid
    solution. *)
Lemma solved_without_check_counterexample :
  exists s',
    solve frozen 82 (fresh ones) = Some (true, s')
    /\ outcome (true, s') = Solved
    /\ ~ valid_solution (grid s').
Proof.
  eexists. split; [vm_compute; reflexivity|]. split; [reflexivity|].
  intros [_ Hunits]. cbn [grid] in Hunits.
  apply Forall_inv in Hunits. specialize (Hunits 2%Z ltac:(lia)).
  vm_compute in Hunits. discriminate.
Qed.

(** C1 (amended): for every input grid with cells in 0-9 in which no row,
    column or box holds a digit twice, if [solve] returns Solved then the
    grid afterwards is a complete valid solution: no cell is 0, and every
    row, column and 3x3 box holds each of the digits 1-9 exactly once. *)
Theorem solved_grid_is_valid (now : nat -> Z) (depth : nat) (s : Sudoku)
    (b : bool) (s' : Sudoku) :
  shaped (grid s) -> in_range (grid s) -> consistent (grid s) ->
  solve now depth s = Some (b, s') ->
  outcome (b, s') = Solved ->
  valid_solution (grid s').
Proof.
  intros Hs Hrange Hcons Hrun Hout.
  assert (b = true) as ->.
  { unfold outcome in Hout. simpl in Hout.
    destruct b; [done|]. by destruct (timed_out s'). }
  destruct (solve_frame now depth s true s' Hs Hrun)
    as (_ & Hrange' & Htrue & _).
  destruct (solve_trace now depth s true s' Hs Hrun)
    as (new & _ & _ & Hcons').
  destruct (Htrue eq_refl) as [_ Hfull].
  destruct (Hcons' Hcons) as [Hc _].
  apply complete_consistent_valid; auto.
Qed.

Lemma in_range_literal (g : Grid) :
  forallb (forallb (fun v => (0 <=? v) && (v <=? 9))%Z) g = true ->
  in_range g.
Proof.
  intros H. apply Forall_forall. intros r Hr%list_elem_of_In.
  rewrite forallb_forall in H. specialize (H r Hr).
  apply Forall_forall. intros v Hv%list_elem_of_In.
  rewrite forallb_forall in H. specialize (H v Hv). lia.
Qed.

Lemma consistent_literal (g : Grid) :
  bool_decide (Forall (fun u => NoDup (filter (fun v => v <> 0%Z) u))
                 (units g)) = true ->
  consistent g.
Proof. intros H. by apply bool_decide_eq_true in H. Qed.

Lemma solved_grid_is_valid_witness :
  shaped nearly_done /\ in_range nearly_done /\ consistent nearly_done
  /\ exists s',
       solve frozen 82 (fresh nearly_done) = Some (true, s')
       /\ outcome (true, s') = Solved
       /\ valid_solution (grid s').
Proof.
  assert (Hs : shaped nearly_done) by (by apply shaped_literal).
  assert (Hr : in_range nearly_done) by (by apply in_range_literal).
  assert (Hc : consistent nearly_done)
    by (apply consistent_literal; vm_compute; reflexivity).
  split_and!; [done..|].
  eexists. split; [vm_compute; reflexivity|]. split; [reflexivity|].
  apply (solved_grid_is_valid frozen 82 (fresh nearly_done) true _ Hs Hr Hc).
  - vm_compute. reflexivity.
  - reflexivity.
Defined.

(** ** The invariant of the search *)

(** C5, as stated, fails: started on [ones_but_corner], whose rows already
    hold a digit twice, the search places 2 at (0,0) and the grid after that
    placement still has two 1s in row 0. *)
Lemma duplicates_during_search_counterexample :
  exists s',
    solve frozen 82 (fresh ones_but_corner) = Some (true, s')
    /\ ~ Forall snapshot_consistent (log s').
Proof.
  eexists. split; [vm_compute; reflexivity|].
  cbn [log]. intros H.
  apply Forall_cons in H as [_ H]. apply Forall_cons in H as [H _].
  cbn [snapshot_consistent] in H.
  rewrite consistent_peers in H.
  apply (H 0 1 0 2); unfold N; try lia.
  - split; [discriminate|by left].
  - vm_compute. discriminate.
  - reflexivity.
Qed.

(** C5 (amended): when [solve] is called on a grid in which no row, column
    or box holds a digit twice, the same is true of the grid after each
    placement and after each undo of the search, and of the grid when
    [solve] returns. *)
Theorem search_keeps_consistency (now : nat -> Z) (depth : nat) (g : Grid)
    (b : bool) (s' : Sudoku) :
  shaped g -> consistent g ->
  solve now depth (fresh g) = Some (b, s') ->
  Forall snapshot_consistent (log s') /\ consistent (grid s').
Proof.
  intros Hs Hcons Hrun.
  destruct (solve_trace now depth (fresh g) b s' Hs Hrun)
    as (new & Hlog & _ & Hc).
  simpl in Hlog. rewrite app_nil_r in Hlog. subst new.
  destruct (Hc Hcons) as [? ?]. done.
Qed.

Lemma search_keeps_consistency_witness :
  shaped nearly_done /\ consistent nearly_done
  /\ exists s',
       solve frozen 82 (fresh nearly_done) = Some (true, s')
       /\ Forall snapshot_consistent (log s') /\ consistent (grid s').
Proof.
  assert (Hs : shaped nearly_done) by (by apply shaped_literal).
  assert (Hc : consistent nearly_done)
    by (apply consistent_literal; vm_compute; reflexivity).
  split_and!; [done..|].
  eexists. split; [vm_compute; reflexivity|].
  apply (search_keeps_consistency frozen 82 nearly_done true _ Hs Hc).
  vm_compute. reflexivity.
Defined.

(** C6: when a deadline test of a [solve] call fails, it is the last event
    of the call: no candidate is taken up, nothing is placed and nothing is
    undone after it at any level; the grid is left as it was at that test,
    with the placement made just before it (if the test was not the first
    one) still in its cell; and the call reports TimedOut. *)
Theorem timeout_propagates (now : nat -> Z) (depth : nat) (g : Grid)
    (b : bool) (s' : Sudoku) :
  shaped g ->
  solve now depth (fresh g) = Some (b, s') ->
  In (Checked true) (log s') ->
  outcome (b, s') = TimedOut /\ aborted_at_deadline g s' (log s').
Proof.
  intros Hs Hrun Hlate.
  destruct (solve_abort now depth (fresh g) b s' Hs Hrun)
    as (new & Hlog & Habort).
  simpl in Hlog. rewrite app_nil_r in Hlog. subst new.
  destruct Habort as [[_ Hnone]|(Hto & -> & Hlast)]; [done|].
  split; [|done]. unfold outcome. simpl. by rewrite Hto.
Qed.

Lemma timeout_propagates_witness :
  shaped nearly_done
  /\ exists s',
       solve (jumping 2) 82 (fresh nearly_done) = Some (false, s')
       /\ In (Checked true) (log s')
       /\ outcome (false, s') = TimedOut
       /\ aborted_at_deadline nearly_done s' (log s').
Proof.
  assert (Hs : shaped nearly_done) by (by apply shaped_literal).
  split; [done|].
  eexists. split; [vm_compute; reflexivity|].
  split; [by left|].
  apply (timeout_propagates (jumping 2) 82 nearly_done false _ Hs).
  - vm_compute. reflexivity.
  - by left.
Defined.

(** ** Writing a grid *)

Lemma toString_layout (g : Grid) :
  toString g = layout (fun i j => cell_char (get g i j)).
Proof. reflexivity. Qed.

Lemma cell_char_value (v : Z) :
  (0 <= v <= 9)%Z -> cell_char v = value_char v.
Proof.
  intros Hv.
  assert (H : (v = 0 \/ v = 1 \/ v = 2 \/ v = 3 \/ v = 4 \/ v = 5 \/ v = 6
               \/ v = 7 \/ v = 8 \/ v = 9)%Z) by lia.
  repeat destruct H as [->|H]; try subst v; reflexivity.
Qed.

Lemma toString_spec (g : Grid) :
  in_range g -> toString g = to_text_spec g.
Proof.
  intros Hg. rewrite toString_layout. unfold to_text_spec.
  assert (H : forall i j, cell_char (get g i j) = value_char (get g i j)).
  { intros i j. apply cell_char_value. by apply in_range_get. }
  unfold layout, data_row. by rewrite !H.
Qed.

(** C8: for every grid (cells 0-9), the text [toString] produces is nine
    data rows, each on a line of its own and made of nine value characters
    (the digit of a non-zero cell, a dot for 0) with a bar after the third
    and the sixth but not after the ninth, and a line of dashes after the
    third and the sixth data row but not after the ninth. *)
Theorem toString_format (g : Grid) :
  in_range g -> toString g = to_text_spec g.
Proof. apply toString_spec. Qed.

Lemma toString_format_witness :
  in_range nearly_done /\ toString nearly_done = to_text_spec nearly_done.
Proof.
  assert (Hr : in_range nearly_done) by (by apply in_range_literal).
  split; [exact Hr|]. exact (toString_format nearly_done Hr).
Defined.

(** ** Reading a grid *)

Lemma read_rows_eq (file : text) (i : nat) (g : Grid) :
  read_rows file i g =
  if i <? N then
    match getline file with
    | None => g
    | Some (line, rest) =>
        if found dashes line then read_rows rest i g
        else read_rows rest (S i) (scan_line line i 0 g)
    end
  else g.
Proof.
  funelim (read_rows file i g).
  - by rewrite Heq.
  - by rewrite Heq, e.
  - by rewrite Heq, e.
Qed.

Lemma cell_of_code (c : ascii) :
  cell_of c =
  if Ascii.eqb c "."%char then Some 0%Z
  else if isdigit c then Some (digit_value c)
  else None.
Proof. destruct c as [[] [] [] [] [] [] [] []]; reflexivity. Qed.

Lemma cell_of_range (c : ascii) (v : Z) :
  cell_of c = Some v -> (0 <= v <= 9)%Z.
Proof.
  destruct c as [[] [] [] [] [] [] [] []]; simpl; intros [= <-]; lia.
Qed.

Lemma pad_to_full {A : Type} (n : nat) (d : A) (l : list A) :
  n <= length l -> pad_to n d l = l.
Proof.
  intros H. unfold pad_to. replace (n - length l) with 0 by lia.
  simpl. by rewrite app_nil_r.
Qed.

Lemma line_values_cons (c : ascii) (line : text) :
  line_values (c :: line) =
  match cell_of c with
  | Some v => v :: line_values line
  | None => line_values line
  end.
Proof. reflexivity. Qed.

(** Scanning a line into row [i], of which the first [col] cells are
    already set and the others still 0. *)
Lemma scan_line_row (i : nat) (line : text) :
  forall col g cells,
    g !! i = Some (cells ++ replicate (N - col) 0%Z) ->
    length cells = col -> col <= N ->
    scan_line line i col g =
    <[i := pad_to N 0%Z (cells ++ take (N - col) (line_values line))]> g.
Proof.
  induction line as [|c line IH]; intros col g cells Hrow Hlen Hcol.
  - simpl. unfold line_values. simpl. rewrite take_nil, app_nil_r.
    unfold pad_to. rewrite Hlen. symmetry. by apply list_insert_id.
  - cbn [scan_line]. destruct (N <=? col) eqn:Hfull.
    { apply Nat.leb_le in Hfull. assert (col = N) as -> by lia.
      replace (N - N) with 0 in * by lia. rewrite take_0, app_nil_r.
      simpl in Hrow. rewrite app_nil_r in Hrow.
      rewrite pad_to_full by lia. symmetry. by apply list_insert_id. }
    apply Nat.leb_gt in Hfull.
    assert (Hstep : forall v,
      scan_line line i (S col) (set g i col v) =
      <[i := pad_to N 0%Z (cells ++ v :: take (N - S col) (line_values line))]>
        g).
    { intros v.
      assert (Hset : set g i col v
                     = <[i := (cells ++ [v]) ++ replicate (N - S col) 0%Z]> g).
      { unfold set. f_equal.
        rewrite (list_lookup_total_correct _ _ _ Hrow).
        rewrite insert_app_r_alt by lia.
        replace (col - length cells) with 0 by lia.
        replace (N - col) with (S (N - S col)) by lia.
        simpl. by rewrite <- app_assoc. }
      rewrite (IH (S col) _ (cells ++ [v])).
      - rewrite Hset, list_insert_insert_eq. by rewrite <- app_assoc.
      - rewrite Hset. apply list_lookup_insert_eq.
        by eapply lookup_lt_Some.
      - rewrite length_app. simpl. lia.
      - lia. }
    rewrite line_values_cons, cell_of_code.
    replace (N - col) with (S (N - S col)) by lia.
    destruct (Ascii.eqb c "."%char); [by rewrite Hstep|].
    destruct (isdigit c); [by rewrite Hstep|].
    replace (S (N - S col)) with (N - col) by lia.
    by apply IH.
Qed.

Lemma getline_lines (file : text) :
  match getline file with
  | None => file = []
  | Some (line, rest) =>
      split_lines file = line :: split_lines rest
      /\ length rest < length file
  end.
Proof.
  induction file as [|c file IH]; simpl; [done|].
  destruct (Ascii.eqb c newline); [split; [done|lia]|].
  destruct (getline file) as [[line rest]|].
  - destruct IH as [-> Hlen]. split; [done|lia].
  - subst file. simpl. split; [done|lia].
Qed.

Lemma pad_to_length {A : Type} (n : nat) (d : A) (l : list A) :
  length l <= n -> length (pad_to n d l) = n.
Proof.
  intros H. unfold pad_to. rewrite length_app, length_replicate. lia.
Qed.

(** The loop of the constructor, entered with [i] rows read and stored in
    [done] and the other rows still empty. *)
Lemma read_rows_spec (n : nat) :
  forall file i done,
    length file < n -> length done = i -> i <= N ->
    read_rows file i (done ++ replicate (N - i) (replicate N 0%Z)) =
    pad_to N (replicate N 0%Z)
      (done ++ (spec_row <$>
                take (N - i)
                  (List.filter (fun l => negb (found dashes l))
                     (split_lines file)))).
Proof.
  induction n as [|n IH]; intros file i done Hn Hlen Hi; [lia|].
  rewrite read_rows_eq. destruct (i <? N) eqn:Hlt.
  - apply Nat.ltb_lt in Hlt.
    pose proof (getline_lines file) as Hline.
    destruct (getline file) as [[line rest]|].
    + destruct Hline as [-> Hshorter].
      cbn [List.filter]. destruct (found dashes line); cbn [negb].
      * apply IH; [lia|done..].
      * replace (N - i) with (S (N - S i)) at 2 by lia.
        rewrite firstn_cons, fmap_cons.
        rewrite (scan_line_row i line 0 _ []).
        -- rewrite Nat.sub_0_r, app_nil_l. fold (spec_row line).
           replace (N - i) with (S (N - S i)) by lia.
           cbn [replicate].
           rewrite insert_app_r_alt by lia.
           replace (i - length done) with 0 by lia. cbn [insert list_insert].
           rewrite (cons_middle (spec_row line) done), app_assoc.
           rewrite (IH rest (S i) (done ++ [spec_row line]));
             [|lia|rewrite length_app; simpl; lia|lia].
           by rewrite <- !app_assoc.
        -- rewrite lookup_app_r by lia.
           replace (i - length done) with 0 by lia.
           replace (N - i) with (S (N - S i)) by lia.
           by rewrite Nat.sub_0_r.
        -- done.
        -- lia.
    + subst file. simpl. rewrite take_nil. simpl. rewrite app_nil_r.
      unfold pad_to. by rewrite Hlen.
  - apply Nat.ltb_ge in Hlt. assert (i = N) as Hi' by lia.
    rewrite Hi', Nat.sub_diag, take_0. simpl. rewrite !app_nil_r.
    rewrite pad_to_full by lia. done.
Qed.

(** The constructor computes the grid the specification describes. *)
Lemma construct_from_text_spec (file : text) :
  construct_from_text file = construct_spec file.
Proof.
  unfold construct_from_text, construct_spec, kept_lines, empty_grid.
  apply (read_rows_spec (S (length file)) file 0 []); [lia|done|lia].
Qed.

Lemma starts_with_iff (p s : text) :
  starts_with p s = true <-> exists b, s = p ++ b.
Proof.
  revert s. induction p as [|a p IH]; intros s; simpl.
  - split; [intros _; by exists s|done].
  - destruct s as [|c s].
    + split; [done|]. by intros [b Hb].
    + rewrite andb_true_iff, IH, Ascii.eqb_eq. split.
      * intros [-> [b ->]]. by exists b.
      * intros [b [= -> ->]]. split; [done|by exists b].
Qed.

Lemma found_iff (p s : text) :
  found p s = true <-> has_substring p s.
Proof.
  unfold has_substring. induction s as [|c s IH]; simpl.
  - rewrite orb_false_r, starts_with_iff. split.
    + intros [b Hb]. by exists [], b.
    + intros (a & b & H). destruct a; [|done]. by exists b.
  - rewrite orb_true_iff, IH, starts_with_iff. split.
    + intros [[b Hb]|(a & b & ->)].
      * by exists [], b.
      * by exists (c :: a), b.
    + intros (a & b & H). destruct a as [|c' a].
      * left. by exists b.
      * right. injection H as -> ->. by exists a, b.
Qed.

Lemma spec_row_shape (line : text) :
  length (spec_row line) = N
  /\ Forall (fun v => 0 <= v <= 9)%Z (spec_row line).
Proof.
  unfold spec_row. split.
  - apply pad_to_length. rewrite length_take. lia.
  - unfold pad_to. apply Forall_app. split.
    + apply Forall_take. unfold line_values.
      apply Forall_forall. intros v Hv.
      apply list_elem_of_omap in Hv as (c & _ & Hc).
      by apply (cell_of_range c).
    + apply Forall_replicate. lia.
Qed.

Lemma construct_spec_shape (file : text) :
  shaped (construct_spec file) /\ in_range (construct_spec file).
Proof.
  unfold construct_spec, pad_to. split; [split|].
  - rewrite length_app, length_replicate, length_fmap.
    unfold kept_lines. rewrite length_take. lia.
  - apply Forall_app. split.
    + apply Forall_fmap, Forall_forall. intros line _. apply spec_row_shape.
    + apply Forall_replicate. by rewrite length_replicate.
  - apply Forall_app. split.
    + apply Forall_fmap, Forall_forall. intros line _. apply spec_row_shape.
    + apply Forall_replicate, Forall_replicate. lia.
Qed.

(** C7: the constructor is a total function of the text, with no error
    result; the grid it returns is the one described: the lines that contain
    three dashes in a row are left out and do not count, each of the first
    nine other lines gives a row, made of the values of its dots (0) and
    digits in order, other characters being passed over, the values after
    the ninth being dropped, and columns and rows that are not supplied
    being 0. *)
Theorem construct_from_text_lenient (file : text) :
  construct_from_text file = construct_spec file
  /\ shaped (construct_from_text file)
  /\ in_range (construct_from_text file)
  /\ (forall line, found dashes line = true <-> has_substring dashes line).
Proof.
  rewrite construct_from_text_spec.
  split_and!; [done|apply construct_spec_shape..|].
  intros line. apply found_iff.
Qed.

(** ** Writing, then reading *)

Lemma split_lines_line (l rest : text) :
  Forall (fun c => c <> newline) l ->
  split_lines (line_of l ++ rest) = l :: split_lines rest.
Proof.
  unfold line_of. induction 1 as [|c l Hc _ IH]; simpl; [done|].
  apply Ascii.eqb_neq in Hc. rewrite Hc. by rewrite IH.
Qed.

Lemma split_lines_concat (lines : list text) :
  Forall (Forall (fun c => c <> newline)) lines ->
  split_lines (concat (line_of <$> lines)) = lines.
Proof.
  induction 1 as [|l lines Hl _ IH]; [done|].
  rewrite fmap_cons, concat_cons, split_lines_line by done.
  by rewrite IH.
Qed.

Lemma no_dash_not_found (s : text) :
  Forall (fun c => c <> "-"%char) s -> found dashes s = false.
Proof.
  induction 1 as [|c s Hc _ IH]; [done|].
  cbn [found]. rewrite IH, orb_false_r.
  apply Ascii.eqb_neq in Hc. rewrite Ascii.eqb_sym in Hc.
  unfold dashes. cbn [list_ascii_of_string starts_with]. by rewrite Hc.
Qed.

Lemma value_char_facts (v : Z) :
  (0 <= v <= 9)%Z ->
  value_char v <> newline /\ value_char v <> "-"%char
  /\ cell_of (value_char v) = Some v.
Proof.
  intros Hv.
  assert (H : (v = 0 \/ v = 1 \/ v = 2 \/ v = 3 \/ v = 4 \/ v = 5 \/ v = 6
               \/ v = 7 \/ v = 8 \/ v = 9)%Z) by lia.
  repeat destruct H as [->|H]; try subst v; by split_and!.
Qed.

Lemma data_row_facts (ch : nat -> ascii) (vs : nat -> Z) :
  (forall j, ch j <> newline /\ ch j <> "-"%char
             /\ cell_of (ch j) = Some (vs j)) ->
  Forall (fun c => c <> newline) (data_row ch)
  /\ found dashes (data_row ch) = false
  /\ spec_row (data_row ch) = vs <$> seq 0 N.
Proof.
  intros H. unfold data_row. split_and!.
  - repeat constructor; (apply H || discriminate).
  - apply no_dash_not_found. repeat constructor; (apply H || discriminate).
  - unfold spec_row, line_values. cbn [omap list_omap].
    rewrite !(proj2 (proj2 (H _))). reflexivity.
Qed.

Lemma cells_of_list {A : Type} `{Inhabited A} (l : list A) (n : nat) :
  length l = n -> (fun j => l !!! j) <$> seq 0 n = l.
Proof.
  intros Hlen. apply list_eq. intros i. rewrite list_lookup_fmap.
  destruct (decide (i < n)) as [Hi|Hi].
  - rewrite lookup_seq_lt by done. simpl.
    symmetry. apply list_lookup_lookup_total_lt. lia.
  - rewrite lookup_seq_ge by lia. simpl.
    symmetry. apply lookup_ge_None_2. lia.
Qed.

Lemma shaped_cells (g : Grid) :
  shaped g -> (fun i => (fun j => get g i j) <$> seq 0 N) <$> seq 0 N = g.
Proof.
  intros Hs.
  transitivity ((fun i => g !!! i) <$> seq 0 N);
    [|apply cells_of_list, Hs].
  apply list_fmap_ext. intros k i Hi.
  apply lookup_seq in Hi as [-> Hi]. rewrite Nat.add_0_l.
  apply (cells_of_list (g !!! k) N). by apply shaped_row.
Qed.

(** C4: for every grid with cells in 0-9, reading the text that [toString]
    writes gives the grid back. *)
Theorem toString_round_trip (g : Grid) :
  shaped g -> in_range g -> construct_from_text (toString g) = g.
Proof.
  intros Hs Hr.
  rewrite construct_from_text_spec, toString_spec by done.
  unfold to_text_spec.
  set (ch := fun i j => value_char (get g i j)).
  assert (Hch : forall i, Forall (fun c => c <> newline) (data_row (ch i))
                 /\ found dashes (data_row (ch i)) = false
                 /\ spec_row (data_row (ch i)) = get g i <$> seq 0 N).
  { intros i. apply data_row_facts. intros j.
    apply value_char_facts. by apply in_range_get. }
  assert (Hnl : forall i, Forall (fun c => c <> newline) (data_row (ch i)))
    by apply Hch.
  assert (Hfound : forall i, found dashes (data_row (ch i)) = false)
    by apply Hch.
  assert (Hrow : forall i, spec_row (data_row (ch i)) = get g i <$> seq 0 N)
    by apply Hch.
  change (layout ch) with
    (concat (line_of <$>
       [data_row (ch 0); data_row (ch 1); data_row (ch 2); separator;
        data_row (ch 3); data_row (ch 4); data_row (ch 5); separator;
        data_row (ch 6); data_row (ch 7); data_row (ch 8)])).
  unfold construct_spec, kept_lines.
  rewrite split_lines_concat
    by (repeat first [apply Hnl | apply Forall_nil_2 | apply Forall_cons_2
                     | discriminate]).
  cbn [List.filter]. rewrite !Hfound.
  change (found dashes separator) with true. cbn [negb].
  cbn [take firstn N fmap list_fmap]. rewrite !Hrow.
  rewrite <- (shaped_cells g Hs) at 10. reflexivity.
Qed.

Lemma toString_round_trip_witness :
  shaped nearly_done /\ in_range nearly_done
  /\ construct_from_text (toString nearly_done) = nearly_done.
Proof.
  assert (Hs : shaped nearly_done) by (by apply shaped_literal).
  assert (Hr : in_range nearly_done) by (by apply in_range_literal).
  split_and!; [done..|]. exact (toString_round_trip nearly_done Hs Hr).
Defined.

(** * Further properties of the code *)

(** ** The scan for an empty cell, in order *)

Lemma find_seq_first (f : nat -> bool) (n : nat) :
  forall a x,
    find f (seq a n) = Some x ->
    a <= x < a + n /\ f x = true /\ forall y, a <= y < x -> f y = false.
Proof.
  induction n as [|n IH]; intros a x; simpl; [done|].
  destruct (f a) eqn:Ha.
  - intros [= <-]. split_and!; [lia|lia|done|lia].
  - intros Hx. destruct (IH _ _ Hx) as (Hrange & Hfx & Hfirst).
    split_and!; [lia|lia|done|].
    intros y Hy. destruct (decide (y = a)) as [->|]; [done|].
    apply Hfirst. lia.
Qed.

Lemma findEmptyFrom_first (g : Grid) (n : nat) :
  forall a r c,
    findEmptyFrom g (seq a n) = Some (r, c) ->
    a <= r < a + n /\ findEmptyCol g r = Some c
    /\ forall r', a <= r' < r -> findEmptyCol g r' = None.
Proof.
  induction n as [|n IH]; intros a r c; simpl; [done|].
  destruct (findEmptyCol g a) as [j|] eqn:Ha.
  - intros [= <- <-]. split_and!; [lia|lia|done|lia].
  - intros Hx. destruct (IH _ _ _ Hx) as (Hrange & Hfx & Hfirst).
    split_and!; [lia|lia|done|].
    intros y Hy. destruct (decide (y = a)) as [->|]; [done|].
    apply Hfirst. lia.
Qed.

Lemma findEmptyCell_before (g : Grid) (r c : nat) :
  findEmptyCell g = Some (r, c) ->
  forall r' c', r' < N -> c' < N -> scanned_before r' c' r c ->
    get g r' c' <> 0%Z.
Proof.
  intros Hcell r' c' Hr' Hc' Hbefore.
  apply findEmptyFrom_first in Hcell as (_ & Hcol & Hrows).
  apply Z.eqb_neq. destruct Hbefore as [Hlt|[-> Hlt]].
  - specialize (Hrows r' ltac:(lia)).
    apply (find_none _ _ Hrows). apply in_seq. lia.
  - apply find_seq_first in Hcol as (_ & _ & Hcols). apply Hcols. lia.
Qed.

Lemma complete_findEmptyCell (g : Grid) :
  complete g -> findEmptyCell g = None.
Proof.
  intros Hfull. destruct (findEmptyCell g) as [[r c]|] eqn:Hcell; [|done].
  apply findEmptyCell_Some in Hcell as (Hr & Hc & Hz).
  by destruct (Hfull r c Hr Hc).
Qed.

(** X1: [findEmptyCell] returns the first empty cell in row-major order
    (rows top to bottom, columns left to right), and returns nothing exactly
    when no cell is empty. *)
Theorem findEmptyCell_first (g : Grid) :
  (forall r c,
     findEmptyCell g = Some (r, c) <->
     r < N /\ c < N /\ get g r c = 0%Z
     /\ forall r' c', r' < N -> c' < N -> scanned_before r' c' r c ->
          get g r' c' <> 0%Z)
  /\ (findEmptyCell g = None <-> complete g).
Proof.
  split.
  - intros r c. split.
    + intros Hcell. pose proof (findEmptyCell_before g r c Hcell).
      apply findEmptyCell_Some in Hcell as (? & ? & ?). by split_and!.
    + intros (Hr & Hc & Hz & Hfirst).
      destruct (findEmptyCell g) as [[r2 c2]|] eqn:Hcell.
      * pose proof (findEmptyCell_before g r2 c2 Hcell) as Hfirst2.
        apply findEmptyCell_Some in Hcell as (Hr2 & Hc2 & Hz2).
        destruct (decide (scanned_before r c r2 c2)) as [Hb|Hnb];
          [by destruct (Hfirst2 r c Hr Hc Hb)|].
        destruct (decide (scanned_before r2 c2 r c)) as [Hb|Hnb'];
          [by destruct (Hfirst r2 c2 Hr2 Hc2 Hb)|].
        unfold scanned_before in *. f_equal. f_equal; lia.
      * apply findEmptyCell_None in Hcell. by destruct (Hcell r c Hr Hc).
  - split; [apply findEmptyCell_None|apply complete_findEmptyCell].
Qed.

(** ** The placement test and consistency *)

(** X2: in a consistent grid, for an empty cell and a non-zero value,
    [isSafe] accepts the value exactly when the grid with the value placed
    is still consistent. *)
Theorem isSafe_keeps_consistency (g : Grid) (r c : nat) (v : Z) :
  shaped g -> r < N -> c < N -> get g r c = 0%Z -> v <> 0%Z ->
  consistent g ->
  (isSafe g r c v = true <-> consistent (set g r c v)).
Proof.
  intros Hs Hr Hc Hz Hv Hg. split; [by apply consistent_place|].
  intros Hset. apply isSafe_true; [done..|].
  rewrite consistent_peers in Hset.
  assert (Hpeer : forall i j, i < N -> j < N -> peers r c i j ->
                    get g i j <> v).
  { intros i j Hi Hj Hp E.
    specialize (Hset r c i j Hr Hc Hi Hj Hp).
    rewrite get_set_eq, get_set_ne in Hset by (done || apply Hp).
    by apply Hset. }
  split_and!.
  - intros j Hj. destruct (decide (j = c)) as [->|Hne]; [congruence|].
    apply Hpeer; [done..|]. split; [congruence|by left].
  - intros i Hi. destruct (decide (i = r)) as [->|Hne]; [congruence|].
    apply Hpeer; [done..|]. split; [congruence|by right; left].
  - intros i j Hi Hj Hbr Hbc.
    destruct (decide ((r, c) = (i, j))) as [[= <- <-]|Hne]; [congruence|].
    apply Hpeer; [done..|]. split; [done|]. right; right. by split.
Qed.

Lemma isSafe_keeps_consistency_witness :
  shaped nearly_done /\ 0 < N /\ 0 < N /\ get nearly_done 0 0 = 0%Z
  /\ 5%Z <> 0%Z /\ consistent nearly_done
  /\ (isSafe nearly_done 0 0 5 = true <->
      consistent (set nearly_done 0 0 5)).
Proof.
  assert (Hs : shaped nearly_done) by (by apply shaped_literal).
  assert (Hc : consistent nearly_done)
    by (apply consistent_literal; vm_compute; reflexivity).
  assert (H0 : 0 < N) by (unfold N; lia).
  split_and!; [done..|].
  by apply (isSafe_keeps_consistency nearly_done 0 0 5).
Defined.

(** X3: a value [isSafe] rejects for a cell stays rejected after any write
    to the grid that does not overwrite a cell holding that value. *)
Theorem isSafe_stays_false (g : Grid) (r c r' c' : nat) (v w : Z) :
  r < N -> c < N ->
  isSafe g r c v = false -> get g r' c' <> v ->
  isSafe (set g r' c' w) r c v = false.
Proof.
  intros Hr Hc Hunsafe Hkeep.
  destruct (isSafe (set g r' c' w) r c v) eqn:Hsafe; [|done].
  rewrite <- Hunsafe. symmetry. apply isSafe_true; [done..|].
  apply isSafe_true in Hsafe as (Hrow & Hcol & Hbox); [|done..].
  assert (Hcell : forall i j, get (set g r' c' w) i j <> v ->
                    get g i j <> v).
  { intros i j. destruct (decide ((r', c') = (i, j))) as [[= <- <-]|Hne].
    - done.
    - by rewrite get_set_ne. }
  split_and!; eauto.
Qed.

Lemma isSafe_stays_false_witness :
  0 < N /\ 0 < N /\ isSafe nearly_done 0 0 3 = false
  /\ get nearly_done 4 4 <> 3%Z
  /\ isSafe (set nearly_done 4 4 5) 0 0 3 = false.
Proof.
  assert (H0 : 0 < N) by (unfold N; lia).
  split_and!; [done..|by vm_compute|].
  apply (isSafe_stays_false nearly_done 0 0 4 4 3 5); [done..|by vm_compute].
Defined.

(** ** Completions of a grid *)

Lemma peers_sym (r c r' c' : nat) : peers r c r' c' -> peers r' c' r c.
Proof.
  intros [Hne Hunit]. split; [congruence|].
  destruct Hunit as [->|[->|[-> ->]]]; auto.
Qed.

(** The digit a completion gives to an empty cell passes [isSafe]. *)
Lemma completion_safe (g g' : Grid) (r c : nat) :
  completion g g' -> r < N -> c < N -> get g r c = 0%Z ->
  isSafe g r c (get g' r c) = true.
Proof.
  intros (_ & Hkeep & Hfill) Hr Hc Hz.
  destruct (Hfill r c Hr Hc Hz) as [Hv Hpeers].
  assert (Hcell : forall i j, i < N -> j < N ->
                    (i = r \/ j = c \/ (i / 3 = r / 3 /\ j / 3 = c / 3)) ->
                    get g i j <> get g' r c).
  { intros i j Hi Hj Hunit.
    destruct (decide (get g i j = 0%Z)) as [E|Hnz]; [lia|].
    rewrite <- (Hkeep i j Hi Hj Hnz).
    apply Hpeers; [done..|]. split; [congruence|].
    destruct Hunit as [->|[->|[-> ->]]]; auto. }
  apply isSafe_true; [done..|]. split_and!.
  - intros j Hj. apply Hcell; auto.
  - intros i Hi. apply Hcell; auto.
  - intros i j Hi Hj Hbr Hbc. apply Hcell; auto.
Qed.

(** A completion of [g] is a completion of [g] with one more of its digits
    placed. *)
Lemma completion_place (g g' : Grid) (r c : nat) :
  shaped g -> completion g g' -> r < N -> c < N -> get g r c = 0%Z ->
  completion (set g r c (get g' r c)) g'.
Proof.
  intros Hs (Hs' & Hkeep & Hfill) Hr Hc Hz.
  destruct (Hfill r c Hr Hc Hz) as [Hv _].
  split_and!; [done| |].
  - intros i j Hi Hj.
    destruct (decide ((r, c) = (i, j))) as [[= <- <-]|Hne].
    + by rewrite get_set_eq.
    + rewrite get_set_ne by done. by apply Hkeep.
  - intros i j Hi Hj.
    destruct (decide ((r, c) = (i, j))) as [[= <- <-]|Hne].
    + rewrite get_set_eq by done. lia.
    + rewrite get_set_ne by done. by apply Hfill.
Qed.

(** A completion of [g] with a safe digit placed is a completion of [g]. *)
Lemma completion_unplace (g g' : Grid) (r c : nat) (v : Z) :
  shaped g -> r < N -> c < N -> get g r c = 0%Z -> (1 <= v <= 9)%Z ->
  isSafe g r c v = true ->
  completion (set g r c v) g' -> completion g g'.
Proof.
  intros Hs Hr Hc Hz Hv Hsafe (Hs' & Hkeep & Hfill).
  apply isSafe_true in Hsafe as (Hrow & Hcol & Hbox); [|done..].
  assert (Hhere : get g' r c = v).
  { rewrite (Hkeep r c Hr Hc); rewrite get_set_eq by done; [done|lia]. }
  assert (Hold : forall i j, i < N -> j < N -> get g i j <> 0%Z ->
                   get g' i j = get g i j).
  { intros i j Hi Hj Hnz.
    assert (Hne : (r, c) <> (i, j)) by (intros [= <- <-]; done).
    rewrite (Hkeep i j Hi Hj); rewrite get_set_ne by done; done. }
  split_and!; [done..|].
  intros i j Hi Hj Hzero.
  destruct (decide ((r, c) = (i, j))) as [[= <- <-]|Hne].
  - rewrite Hhere. split; [done|].
    intros i' j' Hi' Hj' Hp.
    destruct (decide (get g i' j' = 0%Z)) as [E|Hnz].
    + assert (Hne : (r, c) <> (i', j')) by apply Hp.
      destruct (Hfill i' j' Hi' Hj') as [_ Hpeers];
        [by rewrite get_set_ne|].
      rewrite <- Hhere. intros Heq. symmetry in Heq. revert Heq.
      apply Hpeers; [done..|]. by apply peers_sym.
    + rewrite Hold by done.
      destruct Hp as [_ [<-|[<-|[Hbr Hbc]]]]; auto.
  - apply Hfill; [done..|]. by rewrite get_set_ne.
Qed.

Lemma complete_completion (g : Grid) :
  shaped g -> complete g -> completion g g.
Proof.
  intros Hs Hfull. split_and!; [done..|].
  intros r c Hr Hc Hz. by destruct (Hfull r c Hr Hc).
Qed.

Lemma candidates_sorted : StronglySorted Z.lt candidates.
Proof. unfold candidates. repeat constructor; lia. Qed.

Lemma digit_candidate (v : Z) : (1 <= v <= 9)%Z -> In v candidates.
Proof. intros Hv. unfold candidates. simpl. lia. Qed.

(** ** What a search finds *)

Lemma backtrack_search (now : nat -> Z) (depth : nat) :
  forall s b s',
    frame_pre s -> backtrack now depth s = Some (b, s') ->
    search_post s b s'.
Proof.
  induction depth as [|depth IH]; intros s b s' Hpre; [done|].
  rewrite backtrack_S. unfold deadline_check.
  destruct (now (reads s) - start_time s >? TIME_LIMIT)%Z.
  { intros [= <- <-]. split; [done|]. intros _. simpl. done. }
  cbn [grid].
  destruct Hpre as [Hshape Hto].
  destruct (findEmptyCell (grid s)) as [[row col]|] eqn:Hcell.
  2:{ intros [= <- <-]. apply findEmptyCell_None in Hcell.
      split; [intros _|done]. cbn [grid].
      split; [by apply complete_completion|].
      intros g' (_ & Hkeep & _). left. intros r c Hr Hc.
      symmetry. apply Hkeep; [done..|]. by apply Hcell. }
  pose proof (findEmptyCell_before _ _ _ Hcell) as Hfirst.
  apply findEmptyCell_Some in Hcell as (Hrow & Hcol & Hzero).
  match goal with |- context [try_candidates _ _ _ _ ?t] =>
    assert (Hinv : frame_inv row col s t) by (by split_and!);
    generalize dependent t
  end.
  assert (Hall : forall g', completion (grid s) g' ->
                   In (get g' row col) candidates).
  { intros g' (_ & _ & Hfill). apply digit_candidate.
    by apply (Hfill row col). }
  pose proof candidates_digits as Hnums.
  pose proof candidates_sorted as Hsorted.
  revert Hall Hnums Hsorted. generalize candidates as nums.
  induction nums as [|num rest IHn]; intros Hall Hnums Hsorted t Hinv.
  { intros [= <- <-]. split; [done|]. intros _ _ g' Hg'.
    by destruct (Hall g' Hg'). }
  apply Forall_cons in Hnums as [Hnum Hrest].
  apply StronglySorted_inv in Hsorted as [Hsorted Hlarger].
  rewrite try_candidates_cons. cbv zeta.
  assert (Hinv' : frame_inv row col s (tried t row col num)) by exact Hinv.
  pose proof Hinv as (_ & _ & _ & Hgrid & _ & Hto').
  assert (Hgrid' : grid (tried t row col num) = grid s) by exact Hgrid.
  rewrite Hgrid'.
  destruct (isSafe (grid s) row col num) eqn:Hsafe.
  2:{ apply IHn; [|done..].
      intros g' Hg'. destruct (Hall g' Hg') as [Heq|Hin]; [|done].
      pose proof (completion_safe (grid s) g' row col Hg' Hrow Hcol Hzero)
        as Hok.
      rewrite <- Heq in Hok. congruence. }
  assert (Hpre1 : frame_pre (place (tried t row col num) row col num)).
  { split; simpl; [|done]. apply shaped_set. by rewrite Hgrid. }
  destruct (backtrack now depth (place (tried t row col num) row col num))
    as [[b1 t1]|] eqn:Hrun; [|done].
  pose proof (IH _ _ _ Hpre1 Hrun) as [Htrue Hfalse].
  simpl in Htrue, Hfalse. rewrite Hgrid in Htrue, Hfalse.
  destruct b1.
  - intros [= <- <-]. split; [intros _|done].
    destruct (Htrue eq_refl) as [Hdone Hleast].
    split; [by apply (completion_unplace _ _ row col num)|].
    intros g' Hg'. destruct (Hall g' Hg') as [Heq|Hin].
    + apply Hleast. rewrite Heq. by apply completion_place.
    + right. exists row, col. split_and!; [done..| |].
      * destruct Hdone as (_ & Hkeep1 & _).
        rewrite (Hkeep1 row col Hrow Hcol);
          rewrite get_set_eq by done; [|lia].
        rewrite Forall_forall in Hlarger. apply Hlarger.
        by apply list_elem_of_In.
      * intros r' c' Hr' Hc' Hbefore.
        pose proof (Hfirst r' c' Hr' Hc' Hbefore) as Hnz.
        destruct Hg' as (_ & Hkeep' & _).
        pose proof (completion_unplace _ _ row col num Hshape Hrow Hcol
                      Hzero Hnum Hsafe Hdone) as (_ & Hkeep & _).
        by rewrite Hkeep, Hkeep'.
  - destruct (timed_out t1) eqn:Hto1.
    { intros [= <- <-]. split; [done|]. intros _. congruence. }
    apply IHn; [|done..|].
    + intros g' Hg'. destruct (Hall g' Hg') as [Heq|Hin]; [|done].
      destruct (Hfalse eq_refl eq_refl g').
      rewrite Heq. by apply completion_place.
    + by apply (frame_inv_undo now depth s (tried t row col num) t1
                  row col num).
Qed.

Lemma solve_search (now : nat -> Z) (depth : nat) (s : Sudoku) (b : bool)
    (s' : Sudoku) :
  shaped (grid s) -> solve now depth s = Some (b, s') -> search_post s b s'.
Proof.
  intros Hs Hrun. change (search_post (start now s) b s').
  by apply (backtrack_search now depth); [apply start_pre|].
Qed.

Lemma outcome_Solved (b : bool) (s' : Sudoku) :
  outcome (b, s') = Solved -> b = true.
Proof.
  unfold outcome. simpl. destruct b; [done|]. by destruct (timed_out s').
Qed.

Lemma outcome_Exhausted (b : bool) (s' : Sudoku) :
  outcome (b, s') = Exhausted -> b = false /\ timed_out s' = false.
Proof.
  unfold outcome. simpl. destruct b; [done|]. by destruct (timed_out s').
Qed.

(** X4: for every input grid, consistent or not, when [solve] returns
    Solved the grid is a completion of the input: the givens are unchanged
    and every cell that was empty holds a digit 1-9 that no other cell of
    its row, column and box holds. *)
Theorem solved_is_completion (now : nat -> Z) (depth : nat) (s : Sudoku)
    (b : bool) (s' : Sudoku) :
  shaped (grid s) ->
  solve now depth s = Some (b, s') ->
  outcome (b, s') = Solved ->
  completion (grid s) (grid s').
Proof.
  intros Hs Hrun Hout. apply outcome_Solved in Hout as ->.
  destruct (solve_search now depth s true s' Hs Hrun) as [Htrue _].
  by destruct (Htrue eq_refl).
Qed.

Lemma solved_is_completion_witness :
  shaped ones_but_corner
  /\ exists s',
       solve frozen 82 (fresh ones_but_corner) = Some (true, s')
       /\ outcome (true, s') = Solved
       /\ completion ones_but_corner (grid s').
Proof.
  assert (Hs : shaped ones_but_corner) by (by apply shaped_literal).
  split; [done|].
  eexists. split; [vm_compute; reflexivity|]. split; [reflexivity|].
  apply (solved_is_completion frozen 82 (fresh ones_but_corner) true _ Hs).
  - vm_compute. reflexivity.
  - reflexivity.
Defined.

(** X6: when [solve] returns Solved, the grid is the first completion of
    the input in the order of the search: read row by row, it does not come
    after any other completion. *)
Theorem solved_is_first_completion (now : nat -> Z) (depth : nat)
    (s : Sudoku) (b : bool) (s' : Sudoku) (g' : Grid) :
  shaped (grid s) ->
  solve now depth s = Some (b, s') ->
  outcome (b, s') = Solved ->
  completion (grid s) g' ->
  not_after (grid s') g'.
Proof.
  intros Hs Hrun Hout Hg'. apply outcome_Solved in Hout as ->.
  destruct (solve_search now depth s true s' Hs Hrun) as [Htrue _].
  destruct (Htrue eq_refl) as [_ Hleast]. by apply Hleast.
Qed.

(** ** Valid solutions are completions *)

Lemma once_digits (u : list Z) :
  length u = N -> each_digit_once u ->
  NoDup u /\ Forall (fun v => 1 <= v <= 9)%Z u.
Proof.
  intros Hlen Honce.
  assert (Hincl : incl candidates u).
  { intros d Hd. apply (count_occ_In Z.eq_dec).
    rewrite Honce; [lia|]. unfold candidates in Hd. simpl in Hd. lia. }
  assert (Hnd : List.NoDup candidates).
  { apply NoDup_ListNoDup. apply (bool_decide_unpack _). by vm_compute. }
  assert (Hle : length u <= length candidates) by (by rewrite Hlen).
  split.
  - apply NoDup_ListNoDup. by apply (NoDup_incl_NoDup Hnd).
  - apply Forall_forall. intros v Hv%list_elem_of_In.
    apply (NoDup_length_incl Hnd Hle Hincl) in Hv.
    unfold candidates in Hv. simpl in Hv. lia.
Qed.

Lemma valid_solution_cells (g : Grid) :
  valid_solution g ->
  consistent g /\ forall r c, r < N -> c < N -> (1 <= get g r c <= 9)%Z.
Proof.
  intros [_ Hunits]. rewrite units_Forall in Hunits.
  assert (Hlen : forall f : nat -> Z, length (f <$> seq 0 N) = N)
    by (intros f; by rewrite length_fmap, length_seq).
  split.
  - apply consistent_units. intros k Hk.
    destruct (Hunits k Hk) as (Hrow & Hcol & Hbox).
    split_and!; apply NoDup_filter; by apply once_digits.
  - intros r c Hr Hc. destruct (Hunits r Hr) as (Hrow & _).
    apply once_digits in Hrow as [_ Hrange]; [|apply Hlen].
    rewrite Forall_forall in Hrange. apply Hrange.
    unfold row_cells. apply list_elem_of_fmap. exists c. split; [done|].
    apply elem_of_seq. lia.
Qed.

Lemma valid_completion (g g' : Grid) :
  shaped g' -> valid_solution g' ->
  (forall r c, r < N -> c < N -> get g r c <> 0%Z ->
     get g' r c = get g r c) ->
  completion g g'.
Proof.
  intros Hs Hvalid Hkeep.
  apply valid_solution_cells in Hvalid as [Hcons Hrange].
  rewrite consistent_peers in Hcons.
  split_and!; [done..|].
  intros r c Hr Hc _. split; [by apply Hrange|].
  intros r' c' Hr' Hc' Hp.
  apply Hcons; [done..|by apply peers_sym|].
  specialize (Hrange r' c' Hr' Hc'). lia.
Qed.

(** X5: when [solve] returns Exhausted, the input grid has no completion;
    in particular no valid solution (no cell 0, each digit once in every
    row, column and box) keeps the givens of the input. *)
Theorem exhausted_no_solution (now : nat -> Z) (depth : nat) (s : Sudoku)
    (b : bool) (s' : Sudoku) :
  shaped (grid s) ->
  solve now depth s = Some (b, s') ->
  outcome (b, s') = Exhausted ->
  (forall g', ~ completion (grid s) g')
  /\ (forall g',
        shaped g' -> valid_solution g' ->
        ~ (forall r c, r < N -> c < N -> get (grid s) r c <> 0%Z ->
             get g' r c = get (grid s) r c)).
Proof.
  intros Hs Hrun Hout. apply outcome_Exhausted in Hout as [-> Hto].
  destruct (solve_search now depth s false s' Hs Hrun) as [_ Hfalse].
  specialize (Hfalse eq_refl Hto). split; [done|].
  intros g' Hs' Hvalid Hkeep. apply (Hfalse g').
  by apply valid_completion.
Qed.

Lemma exhausted_no_solution_witness :
  shaped dead_end
  /\ exists s',
       solve frozen 82 (fresh dead_end) = Some (false, s')
       /\ outcome (false, s') = Exhausted
       /\ (forall g', ~ completion dead_end g')
       /\ (forall g',
             shaped g' -> valid_solution g' ->
             ~ (forall r c, r < N -> c < N -> get dead_end r c <> 0%Z ->
                  get g' r c = get dead_end r c)).
Proof.
  assert (Hs : shaped dead_end) by (by apply shaped_literal).
  split; [done|].
  assert (Hrun : exists s',
             solve frozen 82 (fresh dead_end) = Some (false, s')
             /\ outcome (false, s') = Exhausted).
  { eexists. split; [vm_compute; reflexivity|reflexivity]. }
  destruct Hrun as (s' & Hrun & Hout). exists s'.
  split; [done|]. split; [done|].
  exact (exhausted_no_solution frozen 82 (fresh dead_end) false s' Hs
           Hrun Hout).
Defined.

Lemma solved_is_first_completion_witness :
  shaped nearly_done
  /\ exists s',
       solve frozen 82 (fresh nearly_done) = Some (true, s')
       /\ outcome (true, s') = Solved
       /\ completion nearly_done (grid s')
       /\ not_after (grid s') (grid s').
Proof.
  assert (Hs : shaped nearly_done) by (by apply shaped_literal).
  split; [done|].
  assert (Hrun : exists s',
             solve frozen 82 (fresh nearly_done) = Some (true, s')).
  { eexists. vm_compute. reflexivity. }
  destruct Hrun as (s' & Hrun). exists s'.
  assert (Hdone : completion nearly_done (grid s')).
  { destruct (solve_search frozen 82 (fresh nearly_done) true s' Hs Hrun)
      as [Htrue _]. by destruct (Htrue eq_refl). }
  split_and!; [done..|].
  exact (solved_is_first_completion frozen 82 (fresh nearly_done) true s'
           (grid s') Hs Hrun eq_refl Hdone).
Defined.

(** ** The clock *)

Lemma backtrack_clock (now : nat -> Z) (depth : nat) (s : Sudoku)
    (b : bool) (s' : Sudoku) :
  timed_out s = false -> backtrack now depth s = Some (b, s') ->
  clock_post now s b s'.
Proof.
  apply (backtrack_rule now (fun t => timed_out t = false)
           (clock_post now) clock_inv).
  - intros t _ Hlate. simpl in Hlate. split_and!; simpl; [done|lia|].
    intros _. exists (reads t). split; [done|]. by apply Z.gtb_gt.
  - intros t Hto _ _. split_and!; simpl; [done|lia|congruence].
  - intros t row col Hto _ _. split_and!; simpl; [done|lia|done].
  - intros s0 row col t (Hstart & Hreads & Hto).
    split_and!; [done..|congruence].
  - intros s0 row col t num Hinv _. exact Hinv.
  - intros s0 row col t num (_ & _ & Hto) _ _. exact Hto.
  - intros s0 row col t num t' (Hstart & Hreads & _) _ _ _
           (Hstart' & Hreads' & Hlate').
    unfold clock_post, clock_inv in *. simpl in *. split_and!; [congruence|lia|].
    intros Hto'. destruct (Hlate' Hto') as (k & Hk & Hlate).
    exists k. split; [lia|by rewrite <- Hstart].
  - intros s0 row col t num t' (Hstart & Hreads & _) _ _ _
           (Hstart' & Hreads' & Hlate') Hto'.
    unfold clock_post, clock_inv in *. simpl in *. split_and!; [congruence|lia|].
    intros _. destruct (Hlate' Hto') as (k & Hk & Hlate).
    exists k. split; [lia|by rewrite <- Hstart].
  - intros s0 row col t num t' (Hstart & Hreads & _) _ _ _
           (Hstart' & Hreads' & _) Hto'.
    unfold clock_post, clock_inv in *. simpl in *. split_and!; [congruence|lia|done].
Qed.

(** X7: [solve] returns TimedOut only if some reading of the clock made
    after the one taken as [start_time] is more than the time limit beyond
    it. *)
Theorem timeout_needs_late_clock (now : nat -> Z) (depth : nat)
    (s : Sudoku) (b : bool) (s' : Sudoku) :
  solve now depth s = Some (b, s') ->
  outcome (b, s') = TimedOut ->
  exists k, reads s < k /\ (now k - now (reads s) > TIME_LIMIT)%Z.
Proof.
  intros Hrun Hout.
  assert (Hto : timed_out s' = true).
  { unfold outcome in Hout. simpl in Hout.
    destruct b; [done|]. by destruct (timed_out s'). }
  destruct (backtrack_clock now depth (start now s) b s' eq_refl Hrun)
    as (_ & _ & Hlate).
  destruct (Hlate Hto) as (k & Hk & Hgt). simpl in Hk, Hgt.
  exists k. split; [lia|done].
Qed.

Lemma timeout_needs_late_clock_witness :
  exists s',
    solve (jumping 2) 82 (fresh nearly_done) = Some (false, s')
    /\ outcome (false, s') = TimedOut
    /\ exists k, 0 < k /\ (jumping 2 k - jumping 2 0 > TIME_LIMIT)%Z.
Proof.
  assert (Hrun : exists s',
             solve (jumping 2) 82 (fresh nearly_done) = Some (false, s')
             /\ outcome (false, s') = TimedOut).
  { eexists. split; [vm_compute; reflexivity|reflexivity]. }
  destruct Hrun as (s' & Hrun & Hout). exists s'.
  split; [done|]. split; [done|].
  exact (timeout_needs_late_clock (jumping 2) 82 (fresh nearly_done) false
           s' Hrun Hout).
Defined.

(** X8: under a clock that stays within the time limit, [solve] (with
    depth bound 82) decides whether the grid can be completed: it returns
    Solved when a completion exists and Exhausted otherwise, never
    TimedOut. *)
Theorem solve_decides (now : nat -> Z) (s : Sudoku) :
  shaped (grid s) -> on_time now s ->
  exists b s',
    solve now 82 s = Some (b, s')
    /\ outcome (b, s') <> TimedOut
    /\ (outcome (b, s') = Solved <-> exists g', completion (grid s) g').
Proof.
  intros Hs Hclock.
  destruct (backtrack_returns now 82 (start now s)) as [[b s'] Hrun].
  { by apply start_pre. }
  { pose proof (count_empty_bound (grid s) Hs). simpl. unfold N in *. lia. }
  exists b, s'. split; [done|].
  assert (Hto : timed_out s' = false).
  { destruct (timed_out s') eqn:Hto; [|done]. exfalso.
    destruct (backtrack_clock now 82 (start now s) b s' eq_refl Hrun)
      as (_ & _ & Hlate).
    destruct (Hlate Hto) as (k & Hk & Hgt). simpl in Hk, Hgt.
    specialize (Hclock k ltac:(lia)). lia. }
  destruct (solve_search now 82 s b s' Hs Hrun) as [Htrue Hfalse].
  unfold outcome. simpl. rewrite Hto.
  destruct b.
  - split; [done|]. split; [intros _|done].
    exists (grid s'). by destruct (Htrue eq_refl).
  - split; [done|]. split; [done|].
    intros [g' Hg']. by destruct (Hfalse eq_refl Hto g').
Qed.

Lemma solve_decides_witness :
  shaped dead_end /\ on_time frozen (fresh dead_end)
  /\ exists b s',
       solve frozen 82 (fresh dead_end) = Some (b, s')
       /\ outcome (b, s') <> TimedOut
       /\ (outcome (b, s') = Solved <-> exists g', completion dead_end g').
Proof.
  assert (Hs : shaped dead_end) by (by apply shaped_literal).
  assert (Hc : on_time frozen (fresh dead_end)).
  { intros k _. unfold frozen, TIME_LIMIT. lia. }
  split_and!; [done..|].
  exact (solve_decides frozen (fresh dead_end) Hs Hc).
Defined.

(** X9: after [solve], [hasTimedOut] (the flag [timed_out]) is true exactly
    when a deadline test of this call failed, whatever the flag was before
    the call; and it is false whenever [solve] returns true. *)
Theorem timed_out_reflects_call (now : nat -> Z) (depth : nat) (s : Sudoku)
    (b : bool) (s' : Sudoku) :
  shaped (grid s) ->
  solve now depth s = Some (b, s') ->
  (exists new,
     log s' = new ++ log s
     /\ (timed_out s' = true <-> In (Checked true) new))
  /\ (b = true -> timed_out s' = false).
Proof.
  intros Hs Hrun.
  destruct (solve_abort now depth s b s' Hs Hrun) as (new & Hlog & Habort).
  split.
  - exists new. split; [done|].
    destruct Habort as [[Hto Hnone]|(Hto & _ & before & -> & _)].
    + rewrite Hto. split; [done|]. intros Hin. by destruct (Hnone Hin).
    + split; [intros _; by left|done].
  - intros ->. by destruct Habort as [[Hto _]|(_ & [=] & _)].
Qed.

Lemma timed_out_reflects_call_witness :
  shaped (grid stale)
  /\ exists s',
       solve frozen 82 stale = Some (true, s')
       /\ (exists new,
             log s' = new ++ log stale
             /\ (timed_out s' = true <-> In (Checked true) new))
       /\ (true = true -> timed_out s' = false).
Proof.
  assert (Hs : shaped (grid stale)) by (by apply shaped_literal).
  split; [done|].
  eexists. split; [vm_compute; reflexivity|].
  apply (timed_out_reflects_call frozen 82 stale true _ Hs).
  vm_compute. reflexivity.
Defined.

(** ** Edge cases and invariants of [solve] *)

(** X10: on a grid with no empty cell [solve] makes one deadline test and
    nothing else: it tries no candidate and writes no cell, leaves the grid
    as it is, and returns Solved if the test passes and TimedOut if it
    fails. *)
Theorem full_grid_single_test (now : nat -> Z) (depth : nat) (s : Sudoku)
    (b : bool) (s' : Sudoku) :
  complete (grid s) ->
  solve now depth s = Some (b, s') ->
  grid s' = grid s
  /\ exists late,
       log s' = Checked late :: log s
       /\ b = negb late /\ timed_out s' = late
       /\ outcome (b, s') = (if late then TimedOut else Solved).
Proof.
  intros Hfull. destruct depth as [|depth]; [done|].
  unfold solve. rewrite backtrack_S. unfold deadline_check, start.
  cbn [grid reads start_time timed_out log].
  rewrite (complete_findEmptyCell _ Hfull).
  destruct (_ >? _)%Z.
  - intros [= <- <-]. split; [done|]. by exists true.
  - intros [= <- <-]. split; [done|]. by exists false.
Qed.

Lemma full_grid_single_test_witness :
  complete ones
  /\ exists s',
       solve frozen 82 (fresh ones) = Some (true, s')
       /\ grid s' = ones
       /\ exists late,
            log s' = Checked late :: []
            /\ true = negb late /\ timed_out s' = late
            /\ outcome (true, s') = (if late then TimedOut else Solved).
Proof.
  assert (Hfull : complete ones).
  { apply findEmptyCell_None. by vm_compute. }
  split; [done|].
  eexists. split; [vm_compute; reflexivity|].
  apply (full_grid_single_test frozen 82 (fresh ones) true _ Hfull).
  vm_compute. reflexivity.
Defined.

(** X11: whatever it returns, [solve] leaves a 9x9 grid, and a grid with
    cells in 0-9 if it was given one. *)
Theorem solve_keeps_grid_well_formed (now : nat -> Z) (depth : nat)
    (s : Sudoku) (b : bool) (s' : Sudoku) :
  shaped (grid s) -> in_range (grid s) ->
  solve now depth s = Some (b, s') ->
  shaped (grid s') /\ in_range (grid s').
Proof.
  intros Hs Hr Hrun.
  destruct (solve_frame now depth s b s' Hs Hrun) as (Hs' & Hr' & _).
  auto.
Qed.

Lemma solve_keeps_grid_well_formed_witness :
  shaped nearly_done /\ in_range nearly_done
  /\ exists s',
       solve (jumping 2) 82 (fresh nearly_done) = Some (false, s')
       /\ shaped (grid s') /\ in_range (grid s').
Proof.
  assert (Hs : shaped nearly_done) by (by apply shaped_literal).
  assert (Hr : in_range nearly_done) by (by apply in_range_literal).
  split_and!; [done..|].
  eexists. split; [vm_compute; reflexivity|].
  apply (solve_keeps_grid_well_formed (jumping 2) 82 (fresh nearly_done)
           false _ Hs Hr).
  vm_compute. reflexivity.
Defined.

Lemma not_after_antisym (g1 g2 : Grid) :
  not_after g1 g2 -> not_after g2 g1 ->
  forall r c, r < N -> c < N -> get g1 r c = get g2 r c.
Proof.
  intros [H12|(r1 & c1 & Hr1 & Hc1 & Hlt1 & Hsame1)]; [done|].
  intros [H21|(r2 & c2 & Hr2 & Hc2 & Hlt2 & Hsame2)].
  - specialize (H21 r1 c1 Hr1 Hc1). lia.
  - exfalso.
    destruct (decide (scanned_before r1 c1 r2 c2)) as [Hb|Hnb].
    { specialize (Hsame2 r1 c1 Hr1 Hc1 Hb). lia. }
    destruct (decide (scanned_before r2 c2 r1 c1)) as [Hb|Hnb'].
    { specialize (Hsame1 r2 c2 Hr2 Hc2 Hb). lia. }
    assert (r1 = r2 /\ c1 = c2) as [-> ->]
      by (unfold scanned_before in *; lia).
    lia.
Qed.

Lemma grids_equal (g1 g2 : Grid) :
  shaped g1 -> shaped g2 ->
  (forall r c, r < N -> c < N -> get g1 r c = get g2 r c) -> g1 = g2.
Proof.
  intros Hs1 Hs2 Hcells.
  rewrite <- (shaped_cells g1 Hs1), <- (shaped_cells g2 Hs2).
  apply list_fmap_ext. intros k r Hr. apply lookup_seq in Hr as [-> Hr].
  apply list_fmap_ext. intros k' c Hc. apply lookup_seq in Hc as [-> Hc].
  by apply Hcells.
Qed.

(** X12: the clock decides only whether [solve] finishes: two calls on the
    same grid that do not time out, under any two clocks, return the same
    result and leave the same grid. *)
Theorem result_independent_of_clock (now1 now2 : nat -> Z)
    (depth1 depth2 : nat) (s1 s2 : Sudoku) (b1 b2 : bool)
    (s1' s2' : Sudoku) :
  shaped (grid s1) -> grid s2 = grid s1 ->
  solve now1 depth1 s1 = Some (b1, s1') ->
  solve now2 depth2 s2 = Some (b2, s2') ->
  outcome (b1, s1') <> TimedOut -> outcome (b2, s2') <> TimedOut ->
  b1 = b2 /\ grid s1' = grid s2'.
Proof.
  intros Hs1 Hgrid Hrun1 Hrun2 Hout1 Hout2.
  assert (Hs2 : shaped (grid s2)) by (by rewrite Hgrid).
  assert (Hto : forall b t, outcome (b, t) <> TimedOut ->
                  b = false -> timed_out t = false).
  { intros b t Hout ->. unfold outcome in Hout. simpl in Hout.
    by destruct (timed_out t). }
  destruct (solve_search now1 depth1 s1 b1 s1' Hs1 Hrun1) as [Ht1 Hf1].
  destruct (solve_search now2 depth2 s2 b2 s2' Hs2 Hrun2) as [Ht2 Hf2].
  destruct (solve_frame now1 depth1 s1 b1 s1' Hs1 Hrun1)
    as (Hs1' & _ & _ & Hback1 & _).
  destruct (solve_frame now2 depth2 s2 b2 s2' Hs2 Hrun2)
    as (Hs2' & _ & _ & Hback2 & _).
  rewrite Hgrid in *.
  destruct b1, b2.
  - split; [done|].
    destruct (Ht1 eq_refl) as [Hc1 Hleast1].
    destruct (Ht2 eq_refl) as [Hc2 Hleast2].
    apply grids_equal; [done..|].
    apply not_after_antisym; auto.
  - destruct (Ht1 eq_refl) as [Hc1 _].
    destruct (Hf2 eq_refl (Hto _ _ Hout2 eq_refl) _ Hc1).
  - destruct (Ht2 eq_refl) as [Hc2 _].
    destruct (Hf1 eq_refl (Hto _ _ Hout1 eq_refl) _ Hc2).
  - split; [done|].
    rewrite Hback1, Hback2 by eauto. done.
Qed.

Lemma result_independent_of_clock_witness :
  shaped nearly_done /\ grid stale = nearly_done
  /\ exists s1' s2',
       solve frozen 82 (fresh nearly_done) = Some (true, s1')
       /\ solve (jumping 40) 20 stale = Some (true, s2')
       /\ outcome (true, s1') <> TimedOut
       /\ outcome (true, s2') <> TimedOut
       /\ true = true /\ grid s1' = grid s2'.
Proof.
  assert (Hs : shaped nearly_done) by (by apply shaped_literal).
  split_and!; [done..|].
  eexists _, _. split; [vm_compute; reflexivity|].
  split; [vm_compute; reflexivity|].
  split; [discriminate|]. split; [discriminate|].
  apply (result_independent_of_clock frozen (jumping 40) 82 20
           (fresh nearly_done) stale true true _ _ Hs eq_refl).
  - vm_compute. reflexivity.
  - vm_compute. reflexivity.
  - discriminate.
  - discriminate.
Defined.

(** ** More on the text format *)

Lemma split_lines_concat_app (lines : list text) (rest : text) :
  Forall (Forall (fun c => c <> newline)) lines ->
  split_lines (concat (line_of <$> lines) ++ rest)
  = lines ++ split_lines rest.
Proof.
  induction 1 as [|l lines Hl _ IH]; [done|].
  rewrite fmap_cons, concat_cons, <- app_assoc, split_lines_line by done.
  by rewrite IH.
Qed.

Lemma read_back (g : Grid) (rest : text) :
  shaped g -> in_range g -> construct_from_text (toString g ++ rest) = g.
Proof.
  intros Hs Hr.
  rewrite construct_from_text_spec, toString_spec by done.
  unfold to_text_spec.
  set (ch := fun i j => value_char (get g i j)).
  assert (Hch : forall i, Forall (fun c => c <> newline) (data_row (ch i))
                 /\ found dashes (data_row (ch i)) = false
                 /\ spec_row (data_row (ch i)) = get g i <$> seq 0 N).
  { intros i. apply data_row_facts. intros j.
    apply value_char_facts. by apply in_range_get. }
  assert (Hnl : forall i, Forall (fun c => c <> newline) (data_row (ch i)))
    by apply Hch.
  assert (Hfound : forall i, found dashes (data_row (ch i)) = false)
    by apply Hch.
  assert (Hrow : forall i, spec_row (data_row (ch i)) = get g i <$> seq 0 N)
    by apply Hch.
  change (layout ch) with
    (concat (line_of <$>
       [data_row (ch 0); data_row (ch 1); data_row (ch 2); separator;
        data_row (ch 3); data_row (ch 4); data_row (ch 5); separator;
        data_row (ch 6); data_row (ch 7); data_row (ch 8)])).
  unfold construct_spec, kept_lines.
  rewrite split_lines_concat_app
    by (repeat first [apply Hnl | apply Forall_nil_2 | apply Forall_cons_2
                     | discriminate]).
  rewrite List.filter_app. cbn [List.filter]. rewrite !Hfound.
  change (found dashes separator) with true. cbn [negb].
  cbn [app take firstn N fmap list_fmap]. rewrite !Hrow.
  rewrite <- (shaped_cells g Hs) at 10. reflexivity.
Qed.

(** X13: whatever follows the text of a grid in a file is ignored: reading
    the text [toString] writes, followed by any text, gives the grid
    back. *)
Theorem text_after_grid_is_ignored (g : Grid) (rest : text) :
  shaped g -> in_range g -> construct_from_text (toString g ++ rest) = g.
Proof. apply read_back. Qed.

Lemma text_after_grid_is_ignored_witness :
  shaped nearly_done /\ in_range nearly_done
  /\ construct_from_text (toString nearly_done ++ toString ones)
     = nearly_done.
Proof.
  assert (Hs : shaped nearly_done) by (by apply shaped_literal).
  assert (Hr : in_range nearly_done) by (by apply in_range_literal).
  split_and!; [done..|].
  exact (text_after_grid_is_ignored nearly_done (toString ones) Hs Hr).
Defined.

(** X14: writing the grid read from a text and reading it again changes
    nothing: for every text, the constructor applied to [toString] of the
    grid it built gives that grid. *)
Theorem reading_is_stable (file : text) :
  construct_from_text (toString (construct_from_text file))
  = construct_from_text file.
Proof.
  rewrite <- (app_nil_r (toString _)).
  apply read_back; rewrite construct_from_text_spec;
    apply construct_spec_shape.
Qed.

(** X15: two different grids (9x9, cells 0-9) never have the same text. *)
Theorem toString_injective (g1 g2 : Grid) :
  shaped g1 -> in_range g1 -> shaped g2 -> in_range g2 ->
  toString g1 = toString g2 -> g1 = g2.
Proof.
  intros Hs1 Hr1 Hs2 Hr2 Htext.
  rewrite <- (read_back g1 [] Hs1 Hr1), <- (read_back g2 [] Hs2 Hr2).
  by rewrite Htext.
Qed.

Lemma toString_injective_witness :
  shaped nearly_done /\ in_range nearly_done
  /\ (toString nearly_done = toString nearly_done ->
      nearly_done = nearly_done).
Proof.
  assert (Hs : shaped nearly_done) by (by apply shaped_literal).
  assert (Hr : in_range nearly_done) by (by apply in_range_literal).
  split_and!; [done..|].
  exact (toString_injective nearly_done nearly_done Hs Hr Hs Hr).
Defined.

(** ** The window of [show_grid] *)

Lemma read_lines_eq (stream : text) :
  read_lines stream =
  match getline stream with
  | None => []
  | Some (line, rest) => line :: read_lines rest
  end.
Proof.
  funelim (read_lines stream).
  - by rewrite e.
  - by rewrite e.
Qed.

Lemma read_lines_split (n : nat) :
  forall stream, length stream < n -> read_lines stream = split_lines stream.
Proof.
  induction n as [|n IH]; intros stream Hn; [lia|].
  rewrite read_lines_eq.
  pose proof (getline_lines stream) as Hline.
  destruct (getline stream) as [[line rest]|].
  - destruct Hline as [-> Hshorter]. f_equal. apply IH. lia.
  - by subst stream.
Qed.

(** X16: for the text of every grid (cells 0-9), [show_grid] reads eleven
    lines of eleven characters each and sizes its window 15 by 15, four
    more than the lines in both directions; the only text with no first
    line to measure is the empty one. *)
Theorem show_grid_window (g : Grid) :
  in_range g ->
  window_size (toString g) = Some (15, 15)
  /\ length (read_lines (toString g)) = 11
  /\ Forall (fun line => length line = 11) (read_lines (toString g))
  /\ (forall t, window_size t = None <-> t = []).
Proof.
  intros Hr.
  assert (Hlines : read_lines (toString g)
                   = let ch := fun i j => value_char (get g i j) in
                     [data_row (ch 0); data_row (ch 1); data_row (ch 2);
                      separator;
                      data_row (ch 3); data_row (ch 4); data_row (ch 5);
                      separator;
                      data_row (ch 6); data_row (ch 7); data_row (ch 8)]).
  { rewrite (read_lines_split (S (length (toString g)))) by lia.
    rewrite toString_spec by done. unfold to_text_spec. cbv zeta.
    set (ch := fun i j => value_char (get g i j)).
    assert (Hnl : forall i, Forall (fun c => c <> newline) (data_row (ch i))).
    { intros i. apply (data_row_facts (ch i) (get g i)). intros j.
      apply value_char_facts. by apply in_range_get. }
    change (layout ch) with
      (concat (line_of <$>
         [data_row (ch 0); data_row (ch 1); data_row (ch 2); separator;
          data_row (ch 3); data_row (ch 4); data_row (ch 5); separator;
          data_row (ch 6); data_row (ch 7); data_row (ch 8)])).
    apply split_lines_concat.
    repeat first [apply Hnl | apply Forall_nil_2 | apply Forall_cons_2
                 | discriminate]. }
  split_and!.
  - unfold window_size. rewrite Hlines. reflexivity.
  - rewrite Hlines. reflexivity.
  - rewrite Hlines. cbv zeta. repeat constructor.
  - intros t. unfold window_size.
    rewrite (read_lines_split (S (length t))) by lia.
    pose proof (getline_lines t) as Hline.
    destruct t as [|c t]; [done|]. split; [|done].
    destruct (getline (c :: t)) as [[line rest]|]; [|done].
    destruct Hline as [-> _]. done.
Qed.

Lemma show_grid_window_witness :
  in_range nearly_done
  /\ window_size (toString nearly_done) = Some (15, 15)
  /\ length (read_lines (toString nearly_done)) = 11
  /\ Forall (fun line => length line = 11)
       (read_lines (toString nearly_done))
  /\ (forall t, window_size t = None <-> t = []).
Proof.
  assert (Hr : in_range nearly_done) by (by apply in_range_literal).
  split; [done|]. exact (show_grid_window nearly_done Hr).
Defined.
